(** * AFG2125: the GW Instek function-generator driver of [gwinstek.py]

    A shallow embedding of the class [AFG2125].  The VISA resource the
    driver talks to is modelled by the list of commands written to it so
    far (oldest first); a method is a function from that list to an
    outcome (a returned value or a raised Python exception) and the new
    list.  Python values that reach an f-string are values of [pyval];
    Python floats are binary64 numbers ([PrimFloat.float]), and the
    samples of a waveform are a list of them.  Real numbers appear only
    to state and prove how far a code is from the exact quotient. *)

From Stdlib Require Import ZArith List String Ascii Bool Lia.
From Stdlib Require Import DecimalString DecimalZ DecimalPos.
From Stdlib Require Import Floats.
From Stdlib Require Import Reals Lra Psatz.
Import ListNotations.

Local Open Scope string_scope.
Local Open Scope Z_scope.

(** ** Python values and exceptions *)

(** The values the methods receive as parameters: [None], a [str], an
    [int] or a [float]. *)
Inductive pyval : Type :=
| PyNone
| PyStr (s : string)
| PyInt (z : Z)
| PyFloat (x : float).

Inductive exn : Type :=
| AssertionError
| ValueError
| OverflowError.

Inductive outcome (A : Type) : Type :=
| Returned (a : A)
| Raised (e : exn).
Arguments Returned {A} a.
Arguments Raised {A} e.

(** [x is not None] *)
Definition is_not_None (v : pyval) : bool :=
  match v with
  | PyNone => false
  | _ => true
  end.

(** [str(n)] for an [int]. *)
Definition str_int (z : Z) : string := NilZero.string_of_int (Z.to_int z).

(** [v == s] for a string literal [s]. *)
Definition eq_str (v : pyval) (s : string) : bool :=
  match v with
  | PyStr t => String.eqb t s
  | _ => false
  end.

(** ** The transport: a small state-and-exception monad *)

Module Transport.

(** Commands written to the resource so far, oldest first. *)
Definition log : Type := list string.

Definition io (A : Type) : Type := log -> outcome A * log.

Definition ret {A} (a : A) : io A := fun l => (Returned a, l).

Definition raise {A} (e : exn) : io A := fun l => (Raised e, l).

Definition bind {A B} (m : io A) (k : A -> io B) : io B :=
  fun l =>
    match m l with
    | (Returned a, l') => k a l'
    | (Raised e, l') => (Raised e, l')
    end.

(** A pure computation that may raise. *)
Definition lift {A} (o : outcome A) : io A := fun l => (o, l).

(** [self._resource.write(command)] *)
Definition resource_write (command : string) : io unit :=
  fun l => (Returned tt, (l ++ [command])%list).

(** [assert b] *)
Definition assert (b : bool) : io unit :=
  if b then ret tt else raise AssertionError.

End Transport.
Import Transport.

Declare Scope io_scope.
Delimit Scope io_scope with io.
Notation "x <- m ;; k" := (bind m (fun x => k))
  (at level 61, m at next level, right associativity) : io_scope.
Notation "m ;;; k" := (bind m (fun _ => k))
  (at level 61, right associativity) : io_scope.
Local Open Scope io_scope.

(** What [set_arb_data] hands back: [None] after an upload, the list
    [[0.0] * len(data)] on the all-zero path. *)
Inductive retval : Type :=
| RNone
| RList (l : list float).

(** ** Python's numeric built-ins on floats *)

Module Py.

(** [abs(x)] *)
Definition abs (x : float) : float := PrimFloat.abs x.

(** The loop of [max]: the running maximum is replaced by an item
    that compares greater. *)
Fixpoint max_from (maxval : float) (items : list float) : float :=
  match items with
  | [] => maxval
  | item :: rest =>
      max_from (if PrimFloat.ltb maxval item then item else maxval) rest
  end.

(** [max(iterable)]; an empty iterable raises [ValueError]. *)
Definition max (items : list float) : outcome float :=
  match items with
  | [] => Raised ValueError
  | item :: rest => Returned (max_from item rest)
  end.

(** Round the positive dyadic [m * 2^e] to the nearest integer, ties
    to the even one. *)
Definition round_half_even_dyadic (m : positive) (e : Z) : Z :=
  match e with
  | Zneg p =>
      let d := Z.pow_pos 2 p in
      let q := Z.pos m / d in
      let r := Z.pos m mod d in
      match 2 * r ?= d with
      | Lt => q
      | Gt => q + 1
      | Eq => if Z.even q then q else q + 1
      end
  | _ => Z.pos m * 2 ^ e
  end.

(** [round(x)] with one argument: the nearest [int], ties to even;
    [ValueError] on a NaN and [OverflowError] on an infinity. *)
Definition round (x : float) : outcome Z :=
  match Prim2SF x with
  | S754_nan => Raised ValueError
  | S754_infinity _ => Raised OverflowError
  | S754_zero _ => Returned 0
  | S754_finite s m e =>
      let n := round_half_even_dyadic m e in
      Returned (if s then - n else n)
  end.

(** [range(a, b)] as a list. *)
Definition range (a b : Z) : list Z :=
  map (fun i => a + Z.of_nat i) (seq 0 (Z.to_nat (b - a))).

(** [x in l] for a list of ints. *)
Definition contains (x : Z) (l : list Z) : bool :=
  existsb (Z.eqb x) l.

(** [sep.join(parts)] *)
Definition join (sep : string) (parts : list string) : string :=
  String.concat sep parts.

(** Evaluation of a list comprehension whose element expression may
    raise: left to right, stopping at the first exception. *)
Fixpoint comprehension {A B} (f : A -> outcome B) (l : list A)
  : outcome (list B) :=
  match l with
  | [] => Returned []
  | a :: l' =>
      match f a with
      | Raised e => Raised e
      | Returned b =>
          match comprehension f l' with
          | Raised e => Raised e
          | Returned bs => Returned (b :: bs)
          end
      end
  end.

End Py.

(** ** The driver *)

Section AFG2125.

(** [repr] of a float, as used by f-strings; a built-in of Python. *)
Variable repr_float : float -> string.

(** [f"{v}"] *)
Definition format (v : pyval) : string :=
  match v with
  | PyNone => "None"
  | PyStr s => s
  | PyInt z => str_int z
  | PyFloat x => repr_float x
  end.

(** [AFG2125.write] (the debug logging is not modelled). *)
Definition write (command : string) : io unit := resource_write command.

(** [AFG2125.reset] *)
Definition reset : io unit := write "*RST".

(** [AFG2125.clear] *)
Definition clear : io unit := write "*CLS".

(** [AFG2125.save] *)
Definition save (slot : Z) : io unit := write ("*SAV " ++ str_int slot).

(** [AFG2125.recall] *)
Definition recall (slot : Z) : io unit := write ("*RCL " ++ str_int slot).

(** The command text built by [AFG2125.apply] before it is written. *)
Definition apply_command (function frequency amplitude offset : pyval)
  : string :=
  let command := "SOUR:APPL:" ++ format function in
  let command :=
    if is_not_None frequency
    then command ++ " " ++ format frequency else command in
  let command :=
    if forallb is_not_None [frequency; amplitude]
    then command ++ "," ++ format amplitude else command in
  let command :=
    if forallb is_not_None [frequency; amplitude; offset]
    then command ++ "," ++ format offset else command in
  command.

(** [AFG2125.apply] *)
Definition apply (function frequency amplitude offset : pyval) : io unit :=
  write (apply_command function frequency amplitude offset).

(** [AFG2125.set_amplitude_modulation] *)
Definition set_amplitude_modulation
  (state source function frequency depth : pyval) : io unit :=
  write ("SOUR:AM:STAT " ++ format state) ;;;
  if eq_str state "OFF" then ret tt
  else
    write ("SOUR:AM:SOUR " ++ format source) ;;;
    (if eq_str source "INT"
     then write ("SOUR:AM:INT:FUNC " ++ format function) ;;;
          write ("SOUR:AM:INT:FREQ " ++ format frequency)
     else ret tt) ;;;
    write ("SOUR:AM:DEPT " ++ format depth).

(** [AFG2125.set_frequency_modulation] *)
Definition set_frequency_modulation
  (state source function frequency deviation : pyval) : io unit :=
  write ("SOUR:FM:STAT " ++ format state) ;;;
  if eq_str state "OFF" then ret tt
  else
    write ("SOUR:FM:SOUR " ++ format source) ;;;
    (if eq_str source "INT"
     then write ("SOUR:FM:INT:FUNC " ++ format function) ;;;
          write ("SOUR:FM:INT:FREQ " ++ format frequency)
     else ret tt) ;;;
    write ("SOUR:FM:DEV " ++ format deviation).

(** [AFG2125.set_frequency_sweep] *)
Definition set_frequency_sweep
  (state start stop spacing rate source : pyval) : io unit :=
  write ("SOUR:SWE:STAT " ++ format state) ;;;
  if eq_str state "OFF" then ret tt
  else
    write ("SOUR:FREQ:STAR " ++ format start) ;;;
    write ("SOUR:FREQ:STOP " ++ format stop) ;;;
    write ("SOUR:SWE:SPAC " ++ format spacing) ;;;
    write ("SOUR:SWE:RATE " ++ format rate) ;;;
    write ("SOUR:SWE:SOUR " ++ format source).

End AFG2125.

(** The DAC codes of [set_arb_data] for a peak [max_val]:
    [[round(x * scale) for x in data]] with [scale = 511.0 / max_val]. *)
Definition dac_codes (max_val : float) (data : list float)
  : outcome (list Z) :=
  let scale := (511.0 / max_val)%float in
  Py.comprehension (fun x => Py.round (x * scale)%float) data.

(** [AFG2125.set_arb_data] *)
Definition set_arb_data (data : list float) (slot : Z) : io retval :=
  assert ((1 <=? Z.of_nat (List.length data))
          && (Z.of_nat (List.length data) <=? 4096)) ;;;
  assert (Py.contains slot (Py.range 10 20)) ;;;
  max_val <- lift (Py.max (map Py.abs data)) ;;
  if (max_val =? 0)%float
  then ret (RList (repeat 0.0%float (List.length data)))
  else
    codes <- lift (dac_codes max_val data) ;;
    let data_str := Py.join "," (map str_int codes) in
    write ("DATA:DAC VOLATILE,0," ++ data_str) ;;;
    save slot ;;;
    ret RNone.

(** The default of the [slot] parameter. *)
Definition default_slot : Z := 10.

(** ** Vocabulary of the properties *)

(** The parameters of a call that were supplied (are not [None]). *)
Definition supplied (params : list pyval) : list pyval :=
  filter is_not_None params.

(** The longest prefix of the parameters that is supplied throughout. *)
Fixpoint longest_supplied_prefix (params : list pyval) : list pyval :=
  match params with
  | [] => []
  | v :: rest =>
      if is_not_None v then v :: longest_supplied_prefix rest else []
  end.

(** The supplied parameters form a left-to-right prefix of
    (frequency, amplitude, offset): amplitude only with frequency,
    offset only with both. *)
Definition legal_prefix (frequency amplitude offset : pyval) : bool :=
  (is_not_None frequency || negb (is_not_None amplitude))
  && ((is_not_None frequency && is_not_None amplitude)
      || negb (is_not_None offset)).

(** A parameter value: a number or one of the sentinel tokens. *)
Definition parameter_value (v : pyval) : bool :=
  match v with
  | PyNone => false
  | PyStr s => existsb (String.eqb s) ["MIN"; "MAX"; "DEF"]
  | PyInt _ => true
  | PyFloat _ => true
  end.

Fixpoint no_comma (s : string) : bool :=
  match s with
  | EmptyString => true
  | String c s' => negb (Ascii.eqb c ",") && no_comma s'
  end.

(** [s.split(sep)] for a one-character separator. *)
Fixpoint split_on (sep : ascii) (s : string) : list string :=
  match s with
  | EmptyString => [EmptyString]
  | String c s' =>
      if Ascii.eqb c sep then EmptyString :: split_on sep s'
      else
        match split_on sep s' with
        | [] => [String c EmptyString]
        | w :: ws => String c w :: ws
        end
  end.

(** The values that follow the header of an apply command: none, or a
    space and then the values separated by commas. *)
Definition trailing_values (tail : string) : option (list string) :=
  match tail with
  | EmptyString => Some []
  | String c rest =>
      if Ascii.eqb c " " then Some (split_on "," rest) else None
  end.

(** The text after the header of an apply command that carries the
    given values. *)
Definition render_values (values : list string) : string :=
  match values with
  | [] => ""
  | _ => " " ++ Py.join "," values
  end.

(** [x == 0] on a float. *)
Definition is_zero (x : float) : bool := (x =? 0)%float.

(** ** An instance of [repr] for floats

    The exact decimal expansion of a binary64 number.  It coincides with
    Python's [repr] on the floats whose shortest round-trip decimal is
    exact and is printed without an exponent (such as [50.0], [1.0],
    [0.5] and [1000.0]), which are the ones the examples use. *)

Module ReprExact.

Definition digit (d : Z) : ascii :=
  match d with
  | 0 => "0" | 1 => "1" | 2 => "2" | 3 => "3" | 4 => "4"
  | 5 => "5" | 6 => "6" | 7 => "7" | 8 => "8" | _ => "9"
  end%char.

(** The decimal digits of [r / d] for [0 <= r < d]. *)
Fixpoint fraction_digits (fuel : nat) (r d : Z) : string :=
  match fuel with
  | O => ""
  | S fuel' =>
      if r =? 0 then ""
      else String (digit (10 * r / d))
                  (fraction_digits fuel' ((10 * r) mod d) d)
  end.

Definition repr (x : float) : string :=
  match Prim2SF x with
  | S754_nan => "nan"
  | S754_infinity false => "inf"
  | S754_infinity true => "-inf"
  | S754_zero false => "0.0"
  | S754_zero true => "-0.0"
  | S754_finite s m e =>
      let sign := if s then "-" else "" in
      match e with
      | Zneg p =>
          let d := Z.pow_pos 2 p in
          let frac := fraction_digits (Pos.to_nat p) (Z.pos m mod d) d in
          sign ++ str_int (Z.pos m / d) ++ "."
          ++ (if String.eqb frac "" then "0" else frac)
      | _ => sign ++ str_int (Z.pos m * 2 ^ e) ++ ".0"
      end
  end.

End ReprExact.

(** ** The rounding named by the specification

    Rounding to the nearest integer with ties away from zero: a second
    definition, after the specification's words, to be compared with
    [Py.round], which is what the code calls. *)

Module Spec.

Definition round_half_away_dyadic (m : positive) (e : Z) : Z :=
  match e with
  | Zneg p =>
      let d := Z.pow_pos 2 p in
      let q := Z.pos m / d in
      let r := Z.pos m mod d in
      if 2 * r <? d then q else q + 1
  | _ => Z.pos m * 2 ^ e
  end.

Definition round_half_away (x : float) : outcome Z :=
  match Prim2SF x with
  | S754_nan => Raised ValueError
  | S754_infinity _ => Raised OverflowError
  | S754_zero _ => Returned 0
  | S754_finite s m e =>
      let n := round_half_away_dyadic m e in
      Returned (if s then - n else n)
  end.

End Spec.

(** ** Binary64 numbers as real numbers

    The vocabulary in which the accuracy of the encoding is stated: the
    real value of a float, and what the encoding guarantees for one
    sample. *)

Abbreviation fexp := (SpecFloat.fexp prec emax).

Definition pow2 (e : Z) : R := powerRZ 2 e.

Definition sign_R (s : bool) : R := if s then (-1)%R else 1%R.

(** The real value of a float; zero for the values that have none. *)
Definition SF2R (f : spec_float) : R :=
  match f with
  | S754_finite s m e => ((if s then -1 else 1) * IZR (Zpos m) * pow2 e)%R
  | _ => 0%R
  end.

Definition SF_finite (f : spec_float) : bool :=
  match f with
  | S754_nan | S754_infinity _ => false
  | _ => true
  end.

(** The float is neither a NaN nor an infinity. *)
Definition finite_float (x : float) : bool := SF_finite (Prim2SF x).

Definition float_value (x : float) : R := SF2R (Prim2SF x).

(** A float that is zero or positive, and valid. *)
Definition nonneg_valid (f : spec_float) : Prop :=
  match f with
  | S754_zero _ => True
  | S754_finite false m e => valid_binary (S754_finite false m e) = true
  | _ => False
  end.

(** The smallest peak for which the scale [511.0 / peak] is finite in
    every case: [2^-1015]. *)
Definition min_peak : float := 0x1p-1015%float.

(** What the encoding guarantees for a sample [x] and its code [c]:
    [c] is what the code computes, it lies within [1/2 + 2^-43] of the
    exact [x * 511 / peak], it lies in [[-511, 511]], and it is [511]
    or [-511], by the sign of [x], when [x] is a peak sample. *)
Definition code_spec (peak x : float) (c : Z) : Prop :=
  Py.round (x * (511 / peak))%float = Returned c
  /\ (Rabs (IZR c - float_value x * 511 / float_value peak)
      <= / 2 + pow2 (-43))%R
  /\ -511 <= c <= 511
  /\ (Py.abs x = peak -> c = if (x <? 0)%float then -511 else 511).

(** The upload command for a list of codes. *)
Definition upload_command (codes : list Z) : string :=
  "DATA:DAC VOLATILE,0," ++ Py.join "," (map str_int codes).

(** One sequence is the other with every sample multiplied by [k]. *)
Definition scaled_by (k : R) (data data' : list float) : Prop :=
  Forall2 (fun x x' => float_value x' = (k * float_value x)%R) data data'.

(** ** Rounding in [SpecFloat], restated on fractions

    [SpecFloat] rounds a mantissa together with a location (the
    position of the discarded part relative to one half).  For the
    fraction [N / D] the mantissa is the quotient and the location is
    read off the remainder. *)

(** The location of the fractional part of [N / D]. *)
Definition floc (N D : Z) : location :=
  if N mod D =? 0 then loc_Exact else loc_Inexact (2 * (N mod D) ?= D).

Definition frec (N D : Z) : shr_record :=
  shr_record_of_loc (N / D) (floc N D).

(** Rounding [N / D] to the nearest integer, ties to even, as
    [round_nearest_even] does from the location. *)
Definition rne (N D : Z) : Z := round_nearest_even (N / D) (floc N D).

(** The last step of [binary_round_aux]. *)
Definition pack (sx : bool) (m e : Z) : spec_float :=
  match m with
  | Z0 => S754_zero sx
  | Zpos p => if e <=? 971 then S754_finite sx p e else S754_infinity sx
  | Zneg _ => S754_nan
  end.

(** The mantissa of [511.0]. *)
Definition m511 : positive := 8989607068696576.

(** ** The rest of the driver: scalar settings, queries and the example

    The methods that the properties above do not need.  A reply of the
    instrument is what [Resource.query] hands back; the instrument is
    not part of the driver, so its replies are a parameter, a function
    of what was written so far and of the query.  Python's [float] on a
    string is a built-in and a parameter too. *)

Module PyStr.

(** [c.isspace()] for a character below 256: the control characters
    9 to 13 and 28 to 31, the space, and the characters 133 and 160. *)
Definition isspace (c : ascii) : bool :=
  let n := nat_of_ascii c in
  ((9 <=? n) && (n <=? 13) || (28 <=? n) && (n <=? 32)
   || (n =? 133) || (n =? 160))%nat.

(** [s.lstrip()] *)
Fixpoint lstrip (s : string) : string :=
  match s with
  | EmptyString => EmptyString
  | String c s' => if isspace c then lstrip s' else s
  end.

(** [s.rstrip()] *)
Fixpoint rstrip (s : string) : string :=
  match s with
  | EmptyString => EmptyString
  | String c s' =>
      match rstrip s' with
      | EmptyString => if isspace c then EmptyString else String c EmptyString
      | t => String c t
      end
  end.

(** [s.strip()] *)
Definition strip (s : string) : string := rstrip (lstrip s).

(** Every character of the string is white space. *)
Fixpoint all_space (s : string) : bool :=
  match s with
  | EmptyString => true
  | String c s' => isspace c && all_space s'
  end.

(** The last character of a string, if any. *)
Fixpoint last_char (s : string) : option ascii :=
  match s with
  | EmptyString => None
  | String c EmptyString => Some c
  | String _ s' => last_char s'
  end.

Definition first_char (s : string) : option ascii :=
  match s with
  | EmptyString => None
  | String c _ => Some c
  end.

(** [int(s)] for a string written by [str] on an [int]. *)
Definition int_of_str (s : string) : option Z :=
  option_map Z.of_int (NilZero.int_of_string s).

End PyStr.

Section Settings.

Variable repr_float : float -> string.

(** [AFG2125.set_function] *)
Definition set_function (function : pyval) : io unit :=
  write ("SOUR:FUNC " ++ format repr_float function).

(** [AFG2125.set_frequency] *)
Definition set_frequency (frequency : pyval) : io unit :=
  write ("SOUR:FREQ " ++ format repr_float frequency).

(** [AFG2125.set_amplitude] *)
Definition set_amplitude (amplitude : pyval) : io unit :=
  write ("SOUR:AMPL " ++ format repr_float amplitude).

(** [AFG2125.set_offset] *)
Definition set_offset (offset : pyval) : io unit :=
  write ("SOUR:DCO " ++ format repr_float offset).

(** [AFG2125.set_duty_cycle] *)
Definition set_duty_cycle (duty_cycle : pyval) : io unit :=
  write ("SOUR:SQU:DCYC " ++ format repr_float duty_cycle).

(** [AFG2125.set_ramp_symmetry] *)
Definition set_ramp_symmetry (symmetry : pyval) : io unit :=
  write ("SOUR:RAMP:SYMM " ++ format repr_float symmetry).

(** [AFG2125.set_output] *)
Definition set_output (state : pyval) : io unit :=
  write ("OUTP " ++ format repr_float state).

(** [AFG2125.set_output_load] *)
Definition set_output_load (load : pyval) : io unit :=
  write ("OUTP:LOAD " ++ format repr_float load).

(** [AFG2125.set_voltage_unit] *)
Definition set_voltage_unit (unit : pyval) : io Datatypes.unit :=
  write ("SOUR:VOLT:UNIT " ++ format repr_float unit).

End Settings.

Section Queries.

(** The reply of the instrument to a query, given what was written to
    it before. *)
Variable respond : log -> string -> string.

(** [float(s)]; raises [ValueError] on a string that is no number. *)
Variable float_of_str : string -> outcome float.

(** [self._resource.query(command)]: the command is written and the
    reply is read. *)
Definition resource_query (command : string) : io string :=
  fun l => (Returned (respond l command), (l ++ [command])%list).

(** [AFG2125.query] (the debug logging is not modelled). *)
Definition query (command : string) : io string :=
  response <- resource_query command ;;
  ret (PyStr.strip response).

(** [AFG2125.identify] *)
Definition identify : io string := query "*IDN?".

(** [AFG2125.get_function] *)
Definition get_function : io string := query "SOUR:FUNC?".

(** [AFG2125.get_frequency] *)
Definition get_frequency : io float :=
  response <- query "SOUR:FREQ?" ;; lift (float_of_str response).

(** [AFG2125.get_amplitude] *)
Definition get_amplitude : io float :=
  response <- query "SOUR:AMPL?" ;; lift (float_of_str response).

(** [AFG2125.get_offset] *)
Definition get_offset : io float :=
  response <- query "SOUR:DCO?" ;; lift (float_of_str response).

(** [AFG2125.get_duty_cycle] *)
Definition get_duty_cycle : io float :=
  response <- query "SOUR:SQU:DCYC?" ;; lift (float_of_str response).

(** [AFG2125.get_ramp_symmetry] *)
Definition get_ramp_symmetry : io float :=
  response <- query "SOUR:RAMP:SYMM?" ;; lift (float_of_str response).

(** [AFG2125.get_output] *)
Definition get_output : io float :=
  response <- query "OUTP?" ;; lift (float_of_str response).

(** [AFG2125.get_output_load] *)
Definition get_output_load : io string := query "OUTP:LOAD?".

(** [AFG2125.get_voltage_unit] *)
Definition get_voltage_unit : io string := query "SOUR:VOLT:UNIT?".

End Queries.

(** [AFG2125.close]: the handle is released; nothing is sent to the
    instrument. *)
Definition close : io unit := ret tt.

(** The script of [example.py], for the samples [sine] it computes:
    upload them to slot 10, apply the USER function, close. *)
Definition example_main (repr_float : float -> string) (sine : list float)
  : io unit :=
  set_arb_data sine 10 ;;;
  apply repr_float (PyStr "USER") (PyInt 1000) (PyFloat 1.0) (PyFloat 0.0) ;;;
  close.

(** ** Vocabulary of the further properties *)

(** The text of a command after a fixed header, if it starts with it. *)
Fixpoint after_header (header command : string) : option string :=
  match header, command with
  | EmptyString, _ => Some command
  | String a h, String b c =>
      if Ascii.eqb a b then after_header h c else None
  | String _ _, EmptyString => None
  end.

(** The codes carried by an upload command: what follows the header,
    cut at the commas and read as integers. *)
Definition decode_upload (command : string) : option (list (option Z)) :=
  option_map (fun body => map PyStr.int_of_str (split_on "," body))
    (after_header "DATA:DAC VOLATILE,0," command).

(** * Properties *)

(** ** The transport monad *)

Lemma write_spec command l :
  write command l = (Returned tt, (l ++ [command])%list).
Proof. reflexivity. Qed.

Lemma bind_write {B} command (k : unit -> io B) l :
  bind (write command) k l = k tt (l ++ [command])%list.
Proof. reflexivity. Qed.

Lemma bind_assert_true {B} (k : unit -> io B) l :
  bind (assert true) k l = k tt l.
Proof. reflexivity. Qed.

Lemma bind_assert_false {B} (k : unit -> io B) l :
  bind (assert false) k l = (Raised AssertionError, l).
Proof. reflexivity. Qed.

Ltac io_step :=
  repeat first
    [ rewrite bind_write
    | rewrite bind_assert_true
    | rewrite bind_assert_false
    | rewrite write_spec ].

(** ** Strings *)

Lemma append_assoc (s1 s2 s3 : string) :
  (s1 ++ s2) ++ s3 = s1 ++ s2 ++ s3.
Proof. induction s1 as [|c s1 IH]; simpl; [reflexivity | now rewrite IH]. Qed.

Lemma append_empty_r (s : string) : s ++ "" = s.
Proof. induction s as [|c s IH]; simpl; [reflexivity | now rewrite IH]. Qed.

Lemma prefix_append (s t : string) : String.prefix s (s ++ t) = true.
Proof.
  induction s as [|c s IH]; simpl.
  - now destruct t.
  - destruct (ascii_dec c c) as [_|n]; [exact IH | now elim n].
Qed.

Lemma no_comma_append (s t : string) :
  no_comma (s ++ t) = no_comma s && no_comma t.
Proof.
  induction s as [|c s IH]; simpl; [reflexivity|].
  now rewrite IH, andb_assoc.
Qed.

Lemma split_on_no_comma (w : string) :
  no_comma w = true -> split_on "," w = [w].
Proof.
  induction w as [|c w IH]; simpl; [reflexivity|].
  intros H. apply andb_true_iff in H. destruct H as [Hc Hw].
  apply negb_true_iff in Hc. rewrite Hc, (IH Hw). reflexivity.
Qed.

Lemma split_on_cons (w rest : string) :
  no_comma w = true ->
  split_on "," (w ++ String "," rest) = w :: split_on "," rest.
Proof.
  induction w as [|c w IH]; simpl; [reflexivity|].
  intros H. apply andb_true_iff in H. destruct H as [Hc Hw].
  apply negb_true_iff in Hc. rewrite Hc, (IH Hw). reflexivity.
Qed.

(** Splitting a comma-joined list of comma-free values gives the
    values back. *)
Lemma split_on_join (values : list string) :
  values <> [] ->
  Forall (fun w => no_comma w = true) values ->
  split_on "," (Py.join "," values) = values.
Proof.
  induction values as [|w ws IH]; [congruence|].
  intros _ H. inversion H as [|? ? Hw Hws]; subst.
  destruct ws as [|w' ws].
  - simpl. now apply split_on_no_comma.
  - change (Py.join "," (w :: w' :: ws))
      with (w ++ String "," (Py.join "," (w' :: ws))).
    rewrite (split_on_cons _ _ Hw), IH; [reflexivity|discriminate|assumption].
Qed.

Lemma no_comma_uint (d : Decimal.uint) :
  no_comma (NilEmpty.string_of_uint d) = true.
Proof. induction d; simpl; auto. Qed.

Lemma no_comma_str_int (z : Z) : no_comma (str_int z) = true.
Proof.
  unfold str_int, NilZero.string_of_int, NilZero.string_of_uint.
  destruct (Z.to_int z) as [d|d]; destruct d; simpl;
    try reflexivity; apply no_comma_uint.
Qed.

Lemma digit_not_comma (d : Z) : Ascii.eqb (ReprExact.digit d) "," = false.
Proof.
  destruct d as [|p|p]; try reflexivity.
  do 4 (try destruct p as [p|p|]); reflexivity.
Qed.

Lemma no_comma_fraction_digits fuel r d :
  no_comma (ReprExact.fraction_digits fuel r d) = true.
Proof.
  revert r. induction fuel as [|fuel IH]; intros r; [reflexivity|].
  cbn [ReprExact.fraction_digits].
  destruct (r =? 0); [reflexivity|].
  cbn [no_comma]. now rewrite digit_not_comma, IH.
Qed.

(** The exact decimal expansion never contains a comma. *)
Lemma no_comma_repr_exact (x : float) : no_comma (ReprExact.repr x) = true.
Proof.
  unfold ReprExact.repr.
  destruct (Prim2SF x) as [[|]|[|]| |s m e]; try reflexivity.
  assert (Hs : no_comma (if s then "-" else "") = true) by now destruct s.
  destruct e as [|p|p]; rewrite !no_comma_append, Hs, no_comma_str_int;
    simpl; try reflexivity.
  destruct (String.eqb _ _) eqn:E; [reflexivity|].
  apply no_comma_fraction_digits.
Qed.

(** ** Amplitude modulation *)

(** C7: with state "OFF", [set_amplitude_modulation] writes exactly one
    command, [SOUR:AM:STAT OFF], whatever the source, function,
    frequency and depth are. *)
Theorem set_amplitude_modulation_off
  (repr_float : float -> string) (source function frequency depth : pyval)
  (l : log) :
  set_amplitude_modulation repr_float (PyStr "OFF")
    source function frequency depth l
  = (Returned tt, (l ++ ["SOUR:AM:STAT OFF"])%list).
Proof. reflexivity. Qed.

(** C6, as the code has it: with state "ON" and source "EXT" three
    commands are written, in this order: the state-on command, the
    source selection [SOUR:AM:SOUR EXT] and the depth command; the
    internal-function and internal-frequency commands are omitted. *)
Theorem set_amplitude_modulation_on_ext
  (repr_float : float -> string) (function frequency depth : pyval)
  (l : log) :
  set_amplitude_modulation repr_float (PyStr "ON") (PyStr "EXT")
    function frequency depth l
  = (Returned tt,
     (l ++ ["SOUR:AM:STAT ON"; "SOUR:AM:SOUR EXT";
            ("SOUR:AM:DEPT " ++ format repr_float depth)%string])%list).
Proof.
  unfold set_amplitude_modulation. cbn [eq_str String.eqb Ascii.eqb Bool.eqb].
  io_step. cbn [format]. f_equal. now rewrite <- !app_assoc.
Qed.

(** C6 fails as stated: state ON, source EXT and depth 50.0 write three
    commands, not two; the source selection is written as well. *)
Lemma amplitude_modulation_ext_three_writes :
  let written :=
    snd (set_amplitude_modulation ReprExact.repr (PyStr "ON") (PyStr "EXT")
           (PyStr "SIN") (PyFloat 100.0) (PyFloat 50.0) []) in
  written = ["SOUR:AM:STAT ON"; "SOUR:AM:SOUR EXT"; "SOUR:AM:DEPT 50.0"]
  /\ List.length written <> 2%nat.
Proof. vm_compute. split; [reflexivity | discriminate]. Qed.

(** ** Apply *)

Lemma apply_command_longest_prefix (repr_float : float -> string)
  (function frequency amplitude offset : pyval) :
  apply_command repr_float function frequency amplitude offset
  = "SOUR:APPL:" ++ format repr_float function
    ++ render_values
         (map (format repr_float)
            (longest_supplied_prefix [frequency; amplitude; offset])).
Proof.
  unfold apply_command.
  destruct frequency, amplitude, offset;
    cbn [forallb is_not_None andb longest_supplied_prefix map render_values
         Py.join String.concat format];
    rewrite ?append_assoc; cbn [append]; rewrite ?append_assoc;
    rewrite ?append_empty_r; reflexivity.
Qed.

(** C9: [apply] never raises and writes one command that carries
    exactly the longest prefix of (frequency, amplitude, offset) whose
    parameters are all supplied; a parameter after an omitted one is
    dropped.  In particular amplitude without frequency gives the bare
    header, and offset with frequency but without amplitude gives the
    frequency alone. *)
Theorem apply_longest_prefix
  (repr_float : float -> string)
  (function frequency amplitude offset : pyval) (l : log) :
  let header := "SOUR:APPL:" ++ format repr_float function in
  apply repr_float function frequency amplitude offset l
  = (Returned tt,
     (l ++ [(header
             ++ render_values
                  (map (format repr_float)
                     (longest_supplied_prefix
                        [frequency; amplitude; offset])))%string])%list)
  /\ apply repr_float function PyNone amplitude offset l
     = (Returned tt, (l ++ [header])%list)
  /\ (is_not_None frequency = true ->
      apply repr_float function frequency PyNone offset l
      = (Returned tt,
         (l ++ [(header ++ " " ++ format repr_float frequency)%string])%list)).
Proof.
  intros header. unfold apply. rewrite !write_spec.
  rewrite !apply_command_longest_prefix. fold header.
  split; [reflexivity|]. split.
  - cbn [longest_supplied_prefix is_not_None map render_values].
    now rewrite append_empty_r.
  - intros H. cbn [longest_supplied_prefix is_not_None]. rewrite H.
    reflexivity.
Qed.

(** C3 fails as stated: amplitude without frequency raises nothing; the
    call returns and the bare header is written to the transport. *)
Lemma apply_amplitude_without_frequency :
  apply ReprExact.repr (PyStr "SIN") PyNone (PyFloat 1.0) PyNone []
  = (Returned tt, ["SOUR:APPL:SIN"]).
Proof. vm_compute. reflexivity. Qed.

(** C3, as the code has it: a gapped combination of frequency,
    amplitude and offset raises no error.  The call returns and writes
    one command that stops at the first omitted parameter: the bare
    header when frequency is omitted, the header and the frequency when
    amplitude is. *)
Theorem apply_gapped_writes
  (repr_float : float -> string)
  (function frequency amplitude offset : pyval) (l : log) :
  legal_prefix frequency amplitude offset = false ->
  let header := "SOUR:APPL:" ++ format repr_float function in
  apply repr_float function frequency amplitude offset l
  = (Returned tt,
     (l ++ [if is_not_None frequency
            then (header ++ " " ++ format repr_float frequency)%string
            else header])%list).
Proof.
  intros H header. unfold apply. rewrite write_spec.
  rewrite apply_command_longest_prefix. fold header.
  unfold legal_prefix in H.
  destruct frequency, amplitude, offset; try discriminate H;
    cbn [longest_supplied_prefix is_not_None map render_values];
    rewrite ?append_empty_r; reflexivity.
Qed.

Lemma apply_gapped_writes_witness :
  apply ReprExact.repr (PyStr "SIN") (PyInt 1000) PyNone (PyFloat 0.5) []
  = (Returned tt, ["SOUR:APPL:SIN 1000"]).
Proof.
  exact (apply_gapped_writes ReprExact.repr
           (PyStr "SIN") (PyInt 1000) PyNone (PyFloat 0.5) [] eq_refl).
Defined.

Lemma legal_prefix_supplied (frequency amplitude offset : pyval) :
  legal_prefix frequency amplitude offset = true ->
  longest_supplied_prefix [frequency; amplitude; offset]
  = supplied [frequency; amplitude; offset].
Proof.
  unfold legal_prefix.
  destruct frequency, amplitude, offset; intros H;
    try discriminate H; reflexivity.
Qed.

Lemma no_comma_parameter_value (repr_float : float -> string) (v : pyval) :
  (forall x, no_comma (repr_float x) = true) ->
  parameter_value v = true ->
  no_comma (format repr_float v) = true.
Proof.
  intros Hrepr Hv. destruct v as [|s|z|x]; cbn [format].
  - discriminate Hv.
  - cbn [parameter_value existsb] in Hv.
    rewrite !orb_true_iff in Hv.
    destruct Hv as [H|[H|[H|H]]]; try discriminate H;
      apply String.eqb_eq in H; subst s; reflexivity.
  - apply no_comma_str_int.
  - apply Hrepr.
Qed.

Lemma trailing_values_render (values : list string) :
  Forall (fun w => no_comma w = true) values ->
  trailing_values (render_values values) = Some values.
Proof.
  intros H. destruct values as [|w ws]; [reflexivity|].
  unfold render_values.
  change (" " ++ Py.join "," (w :: ws))
    with (String " " (Py.join "," (w :: ws))).
  cbn [trailing_values]. rewrite Ascii.eqb_refl.
  now rewrite split_on_join.
Qed.

(** C2: when the supplied parameters are parameter values (numbers or
    the tokens MIN, MAX, DEF) and form a legal prefix of (frequency,
    amplitude, offset), the command that [apply] writes starts with
    [SOUR:APPL:<FUNC>] and the values that follow it, separated by
    commas, are exactly the supplied parameters, in that order.  The
    rendering of a float is assumed to contain no comma, as Python's
    does. *)
Theorem apply_legal_prefix
  (repr_float : float -> string)
  (function frequency amplitude offset : pyval) (l : log) :
  (forall x, no_comma (repr_float x) = true) ->
  legal_prefix frequency amplitude offset = true ->
  Forall (fun v => parameter_value v = true)
    (supplied [frequency; amplitude; offset]) ->
  let header := "SOUR:APPL:" ++ format repr_float function in
  exists tail : string,
    apply repr_float function frequency amplitude offset l
    = (Returned tt, (l ++ [(header ++ tail)%string])%list)
    /\ String.prefix header (header ++ tail) = true
    /\ trailing_values tail
       = Some (map (format repr_float)
                 (supplied [frequency; amplitude; offset]))
    /\ option_map (@List.length string) (trailing_values tail)
       = Some (List.length (supplied [frequency; amplitude; offset])).
Proof.
  intros Hrepr Hlegal Hvalues header.
  exists (render_values
            (map (format repr_float)
               (supplied [frequency; amplitude; offset]))).
  assert (Htail :
    trailing_values
      (render_values
         (map (format repr_float)
            (supplied [frequency; amplitude; offset])))
    = Some (map (format repr_float)
              (supplied [frequency; amplitude; offset]))).
  { apply trailing_values_render. apply Forall_map.
    eapply Forall_impl; [|exact Hvalues].
    intros v Hv. now apply no_comma_parameter_value. }
  repeat split.
  - unfold apply. rewrite write_spec, apply_command_longest_prefix.
    rewrite (legal_prefix_supplied _ _ _ Hlegal).
    subst header. rewrite append_assoc. reflexivity.
  - apply prefix_append.
  - exact Htail.
  - rewrite Htail. cbn [option_map]. now rewrite length_map.
Qed.

Lemma apply_legal_prefix_witness :
  exists tail : string,
    apply ReprExact.repr (PyStr "USER") (PyInt 1000) (PyFloat 1.0)
      (PyFloat 0.0) []
    = (Returned tt, [("SOUR:APPL:USER" ++ tail)%string])
    /\ String.prefix "SOUR:APPL:USER" ("SOUR:APPL:USER" ++ tail) = true
    /\ trailing_values tail = Some ["1000"; "1.0"; "0.0"]
    /\ option_map (@List.length string) (trailing_values tail) = Some 3%nat.
Proof.
  apply (apply_legal_prefix ReprExact.repr
           (PyStr "USER") (PyInt 1000) (PyFloat 1.0) (PyFloat 0.0) []).
  - exact no_comma_repr_exact.
  - reflexivity.
  - repeat constructor.
Defined.

(** ** Arbitrary waveforms: validation *)

Lemma contains_range_10_20 (slot : Z) :
  Py.contains slot (Py.range 10 20) = (10 <=? slot) && (slot <=? 19).
Proof.
  change (Py.range 10 20) with [10; 11; 12; 13; 14; 15; 16; 17; 18; 19].
  unfold Py.contains. cbn [existsb].
  destruct (10 <=? slot) eqn:Hlo; destruct (slot <=? 19) eqn:Hhi;
    cbn [andb];
    repeat match goal with
           | |- context [?a =? ?b] => destruct (Z.eqb_spec a b)
           end; cbn [orb]; try reflexivity; lia.
Qed.

(** C8: a sample sequence whose length is outside [1, 4096] (such as 0
    or 4097), or a slot outside [10, 19] (such as 9 or 20), makes
    [set_arb_data] fail on its assertion ([AssertionError] is the
    code's form of the InvalidWaveform error), and nothing has been
    written to the transport when it does. *)
Theorem set_arb_data_rejects (data : list float) (slot : Z) (l : log) :
  Z.of_nat (List.length data) < 1 \/ 4096 < Z.of_nat (List.length data)
  \/ slot < 10 \/ 19 < slot ->
  set_arb_data data slot l = (Raised AssertionError, l).
Proof.
  intros H. unfold set_arb_data.
  destruct ((1 <=? Z.of_nat (List.length data))
            && (Z.of_nat (List.length data) <=? 4096)) eqn:Hlen.
  - rewrite bind_assert_true.
    replace (Py.contains slot (Py.range 10 20)) with false;
      [reflexivity|].
    rewrite contains_range_10_20. symmetry. apply andb_false_iff. lia.
  - reflexivity.
Qed.

Lemma set_arb_data_rejects_witness :
  set_arb_data [] 10 [] = (Raised AssertionError, [])
  /\ set_arb_data (repeat 1.0%float 4097) 10 [] = (Raised AssertionError, [])
  /\ set_arb_data [1.0%float] 9 [] = (Raised AssertionError, [])
  /\ set_arb_data [1.0%float] 20 [] = (Raised AssertionError, []).
Proof.
  split; [|split; [|split]].
  - apply (set_arb_data_rejects [] 10 []). left. reflexivity.
  - apply (set_arb_data_rejects (repeat 1.0%float 4097) 10 []).
    right. left. vm_compute. reflexivity.
  - apply (set_arb_data_rejects [1.0%float] 9 []).
    right. right. left. reflexivity.
  - apply (set_arb_data_rejects [1.0%float] 20 []).
    right. right. right. reflexivity.
Defined.

(** ** Arbitrary waveforms: the all-zero sequence *)

Lemma is_zero_cases (x : float) :
  is_zero x = true -> x = 0%float \/ x = (-0)%float.
Proof.
  unfold is_zero. rewrite FloatAxioms.eqb_spec.
  change (Prim2SF 0) with (S754_zero false).
  intros H.
  assert (Hx : exists s, Prim2SF x = S754_zero s).
  { destruct (Prim2SF x) as [s|[|]| |[|] m e]; try discriminate H.
    now exists s. }
  destruct Hx as [s Hs].
  rewrite <- (SF2Prim_Prim2SF x), Hs.
  destruct s; [right|left]; reflexivity.
Qed.

Lemma abs_of_zero (x : float) : is_zero x = true -> Py.abs x = 0%float.
Proof. intros H. destruct (is_zero_cases x H); subst x; reflexivity. Qed.

Lemma max_from_zeros (items : list float) :
  Forall (fun x => x = 0%float) items -> Py.max_from 0 items = 0%float.
Proof.
  induction 1 as [|x items Hx _ IH]; [reflexivity|].
  subst x. exact IH.
Qed.

Lemma max_abs_all_zero (x : float) (data : list float) :
  Forall (fun x => is_zero x = true) (x :: data) ->
  Py.max (map Py.abs (x :: data)) = Returned 0%float.
Proof.
  intros H. inversion H as [|? ? Hx Hdata]; subst.
  cbn [map Py.max]. rewrite (abs_of_zero x Hx). f_equal.
  apply max_from_zeros. apply Forall_map.
  eapply Forall_impl; [|exact Hdata]. exact abs_of_zero.
Qed.

(** C10: for an all-zero sample sequence of valid length and a valid
    slot, [set_arb_data] returns (the list of zeros) and writes
    nothing: neither the [DATA:DAC] upload nor the [*SAV] save. *)
Theorem set_arb_data_all_zero_writes_nothing
  (data : list float) (slot : Z) (l : log) :
  1 <= Z.of_nat (List.length data) <= 4096 ->
  10 <= slot <= 19 ->
  Forall (fun x => is_zero x = true) data ->
  set_arb_data data slot l
  = (Returned (RList (repeat 0%float (List.length data))), l).
Proof.
  intros Hlen Hslot Hzero. unfold set_arb_data.
  replace ((1 <=? Z.of_nat (List.length data))
           && (Z.of_nat (List.length data) <=? 4096)) with true
    by (symmetry; apply andb_true_iff; lia).
  rewrite bind_assert_true.
  replace (Py.contains slot (Py.range 10 20)) with true
    by (rewrite contains_range_10_20; symmetry; apply andb_true_iff; lia).
  rewrite bind_assert_true.
  destruct data as [|x data]; [cbn in Hlen; lia|].
  rewrite (max_abs_all_zero x data Hzero). reflexivity.
Qed.

Lemma set_arb_data_all_zero_writes_nothing_witness :
  set_arb_data [0; -0; 0]%float 12 ["*RST"]
  = (Returned (RList [0; 0; 0]%float), ["*RST"]).
Proof.
  apply (set_arb_data_all_zero_writes_nothing [0; -0; 0]%float 12 ["*RST"]).
  - cbn. lia.
  - lia.
  - repeat constructor.
Defined.

(** C4, where the code departs from it: the all-zero sequence
    [[0.0, 0.0]] for slot 10 is not uploaded; the call returns
    [[0.0, 0.0]] and the transport has received nothing, where the
    claim has [DATA:DAC VOLATILE,0,0,0] followed by [*SAV 10]. *)
Theorem set_arb_data_all_zero_not_uploaded :
  set_arb_data [0; 0]%float 10 [] = (Returned (RList [0; 0]%float), [])
  /\ snd (set_arb_data [0; 0]%float 10 [])
     <> ["DATA:DAC VOLATILE,0,0,0"; "*SAV 10"].
Proof. vm_compute. split; [reflexivity | discriminate]. Qed.

(** ** Arbitrary waveforms: the worked example *)

(** C5: for the samples [[1.0, -0.5, 0.0, 0.5]] the peak is 1.0, the
    scale is 511, the codes are [[511, -256, 0, 256]] (rounding ties
    away from zero gives the same codes as Python's [round] here), and
    the uploaded command is [DATA:DAC VOLATILE,0,511,-256,0,256],
    followed by the save to the default slot. *)
Theorem set_arb_data_worked_example :
  let data := [1.0; -0.5; 0.0; 0.5]%float in
  Py.max (map Py.abs data) = Returned 1.0%float
  /\ (511.0 / 1.0)%float = 511.0%float
  /\ dac_codes 1.0 data = Returned [511; -256; 0; 256]
  /\ Py.comprehension (fun x => Spec.round_half_away (x * 511.0)%float) data
     = Returned [511; -256; 0; 256]
  /\ set_arb_data data default_slot []
     = (Returned RNone, ["DATA:DAC VOLATILE,0,511,-256,0,256"; "*SAV 10"]).
Proof. vm_compute. repeat split; reflexivity. Qed.

(** * Binary64 arithmetic of the encoding

    What follows derives, from the definitions of [SpecFloat] (to which
    the primitive floats are tied by [FloatAxioms]), the error bounds of
    the two operations of the encoding, [511.0 / max_val] and
    [x * scale], and from them the properties of the codes. *)

(** ** Digits and shifts *)

Local Open Scope Z_scope.

Lemma digits2_pos_bounds (m : positive) :
  2 ^ (Z.pos (digits2_pos m) - 1) <= Z.pos m < 2 ^ Z.pos (digits2_pos m).
Proof.
  induction m as [m IH|m IH|]; cbn [digits2_pos].
  - rewrite Pos2Z.inj_succ.
    replace (Z.succ (Z.pos (digits2_pos m)) - 1)
      with (Z.succ (Z.pos (digits2_pos m) - 1)) by lia.
    rewrite !Z.pow_succ_r by lia. lia.
  - rewrite Pos2Z.inj_succ.
    replace (Z.succ (Z.pos (digits2_pos m)) - 1)
      with (Z.succ (Z.pos (digits2_pos m) - 1)) by lia.
    rewrite !Z.pow_succ_r by lia. lia.
  - cbn. lia.
Qed.

Lemma Zdigits2_bounds (m : Z) : 0 < m ->
  2 ^ (Zdigits2 m - 1) <= m < 2 ^ Zdigits2 m.
Proof. destruct m; try lia. intros _. apply digits2_pos_bounds. Qed.

(** [shr_1] on a nonnegative mantissa. *)
Lemma shr_1_nonneg (m : Z) (r s : bool) : 0 <= m ->
  shr_1 {| shr_m := m; shr_r := r; shr_s := s |}
  = {| shr_m := m / 2; shr_r := Z.odd m; shr_s := r || s |}.
Proof.
  intros Hm. destruct m as [|p|p]; [reflexivity| |lia].
  destruct p as [p|p|]; cbn [shr_1].
  - f_equal. rewrite Pos2Z.inj_xI. apply Z.div_unique with 1; lia.
  - f_equal. rewrite Pos2Z.inj_xO. apply Z.div_unique with 0; lia.
  - reflexivity.
Qed.

Lemma frec_fields (N D : Z) : 0 < D ->
  frec N D = {| shr_m := N / D;
                shr_r := D <=? 2 * (N mod D);
                shr_s := negb (N mod D =? 0) && negb (2 * (N mod D) =? D) |}.
Proof.
  intros HD. unfold frec, floc.
  assert (Hr : 0 <= N mod D < D) by (apply Z.mod_pos_bound; lia).
  remember (N mod D) as r. remember (2 * r) as t.
  destruct (Z.eqb_spec r 0) as [Hr0|Hr0].
  - destruct (Z.leb_spec D t); destruct (Z.eqb_spec t D); try lia; reflexivity.
  - destruct (Z.compare_spec t D);
      destruct (Z.leb_spec D t); destruct (Z.eqb_spec t D); try lia;
        reflexivity.
Qed.

Lemma shr_1_frec (N D : Z) : 0 <= N -> 0 < D ->
  shr_1 (frec N D) = frec N (2 * D).
Proof.
  intros HN HD.
  assert (Hq : 0 <= N / D) by (apply Z.div_pos; lia).
  assert (Hr : 0 <= N mod D < D) by (apply Z.mod_pos_bound; lia).
  assert (HN' : N = D * (N / D) + N mod D) by (apply Z.div_mod; lia).
  rewrite !frec_fields by lia.
  remember (N / D) as q. remember (N mod D) as r.
  assert (Hq2 : q = 2 * (q / 2) + q mod 2) by (apply Z.div_mod; lia).
  assert (Hqm : 0 <= q mod 2 < 2) by (apply Z.mod_pos_bound; lia).
  assert (Hdiv : N / (2 * D) = q / 2).
  { symmetry. apply Z.div_unique with ((q mod 2) * D + r); [nia|nia]. }
  assert (Hmod : N mod (2 * D) = (q mod 2) * D + r).
  { symmetry. apply Z.mod_unique with (q / 2); [nia|nia]. }
  assert (Hodd : Z.odd q = (q mod 2 =? 1)).
  { rewrite Zmod_odd. destruct (Z.odd q); reflexivity. }
  rewrite shr_1_nonneg by lia. rewrite Hmod, Hdiv, Hodd.
  remember (q mod 2) as b. remember (q / 2) as h.
  assert (Hb : b = 0 \/ b = 1) by lia.
  clear Heqb Heqh Heqq Heqr Hq2 Hdiv Hmod Hodd HN'.
  destruct Hb; subst b; rewrite ?Z.mul_0_l, ?Z.mul_1_l, ?Z.add_0_l; f_equal.
  - destruct (Z.eqb_spec 0 1); destruct (Z.leb_spec (2 * D) (2 * r)); try lia;
    reflexivity.
  - destruct (Z.leb_spec D (2 * r)); destruct (Z.eqb_spec r 0);
    destruct (Z.eqb_spec (2 * r) D);
    destruct (Z.eqb_spec (2 * r) (2 * D));
    cbn [negb andb orb]; try reflexivity; try lia.
  - destruct (Z.eqb_spec 1 1); destruct (Z.leb_spec (2 * D) (2 * (D + r)));
    try lia; reflexivity.
  - destruct (Z.leb_spec D (2 * r)); destruct (Z.eqb_spec r 0);
    destruct (Z.eqb_spec (2 * r) D);
    destruct (Z.eqb_spec (D + r) 0);
      destruct (Z.eqb_spec (2 * (D + r)) (2 * D));
    cbn [negb andb orb]; try reflexivity; try lia.
Qed.

Lemma pow2_xO (p : positive) : 2 ^ Z.pos p~0 = 2 ^ Z.pos p * 2 ^ Z.pos p.
Proof. rewrite <- Z.pow_add_r by lia. f_equal. lia. Qed.

Lemma pow2_xI (p : positive) : 2 ^ Z.pos p~1 = 2 * (2 ^ Z.pos p * 2 ^ Z.pos p).
Proof.
  rewrite <- Z.pow_add_r by lia. rewrite <- Z.pow_succ_r by lia. f_equal. lia.
Qed.

Lemma iter_shr_1_frec (p : positive) (N D : Z) : 0 <= N -> 0 < D ->
  SpecFloat.iter_pos shr_1 p (frec N D) = frec N (D * 2 ^ Z.pos p).
Proof.
  intros HN. revert D.
  induction p as [p IH|p IH|]; intros D HD; cbn [SpecFloat.iter_pos].
  - assert (0 < 2 ^ Z.pos p) by (apply Z.pow_pos_nonneg; lia).
    rewrite shr_1_frec, IH, IH by nia.
    rewrite pow2_xI. f_equal. ring.
  - assert (0 < 2 ^ Z.pos p) by (apply Z.pow_pos_nonneg; lia).
    rewrite IH, IH by nia.
    rewrite pow2_xO. f_equal. ring.
  - rewrite shr_1_frec by lia. f_equal. change (2 ^ 1) with 2. ring.
Qed.

(** ** Rounding a fraction *)

Lemma loc_of_shr_record_of_loc (m : Z) (l : location) :
  loc_of_shr_record (shr_record_of_loc m l) = l.
Proof. destruct l as [|[| |]]; reflexivity. Qed.

Lemma shr_m_of_loc (m : Z) (l : location) : shr_m (shr_record_of_loc m l) = m.
Proof. destruct l as [|[| |]]; reflexivity. Qed.

Lemma fexp_eq (x : Z) : fexp x = Z.max (x - 53) (-1074).
Proof. reflexivity. Qed.

(** Shifting by the amount the format asks for. *)
Lemma shr_fexp_frec (N D e : Z) : 0 <= N -> 0 < D ->
  let n := Z.max 0 (fexp (Zdigits2 (N / D) + e) - e) in
  shr_fexp prec emax (N / D) e (floc N D) = (frec N (D * 2 ^ n), e + n).
Proof.
  intros HN HD n. unfold shr_fexp, shr. fold (frec N D).
  subst n. destruct (fexp (Zdigits2 (N / D) + e) - e) as [|p|p] eqn:E.
  - cbn [Z.max Z.compare]. change (2 ^ 0) with 1.
    now rewrite Z.mul_1_r, Z.add_0_r.
  - rewrite iter_shr_1_frec by assumption.
    replace (Z.max 0 (Z.pos p)) with (Z.pos p) by lia. reflexivity.
  - replace (Z.max 0 (Z.neg p)) with 0 by lia.
    change (2 ^ 0) with 1. now rewrite Z.mul_1_r, Z.add_0_r.
Qed.

Lemma rne_spec (N D : Z) : 0 <= N -> 0 < D ->
  N / D <= rne N D <= N / D + 1 /\ Z.abs (2 * rne N D * D - 2 * N) <= D.
Proof.
  intros HN HD. unfold rne, floc, round_nearest_even.
  assert (Hr : 0 <= N mod D < D) by (apply Z.mod_pos_bound; lia).
  assert (HN' : N = D * (N / D) + N mod D) by (apply Z.div_mod; lia).
  remember (N / D) as q. remember (N mod D) as r.
  destruct (Z.eqb_spec r 0); [nia|].
  destruct (Z.compare_spec (2 * r) D); [destruct (Z.even q)| |]; nia.
Qed.

Lemma rne_exact (N : Z) : rne N 1 = N.
Proof.
  unfold rne, floc. rewrite Z.mod_1_r, Z.div_1_r. reflexivity.
Qed.

Lemma floc_1 (m : Z) : floc m 1 = loc_Exact.
Proof. unfold floc. now rewrite Z.mod_1_r. Qed.

Lemma binary_round_aux_frec (sx : bool) (N D e : Z) : 0 <= N -> 0 < D ->
  let n := Z.max 0 (fexp (Zdigits2 (N / D) + e) - e) in
  let m := rne N (D * 2 ^ n) in
  let n2 := Z.max 0 (fexp (Zdigits2 m + (e + n)) - (e + n)) in
  binary_round_aux prec emax sx (N / D) e (floc N D)
  = pack sx (m / 2 ^ n2) (e + n + n2).
Proof.
  intros HN HD n m n2. unfold binary_round_aux.
  rewrite (shr_fexp_frec N D e HN HD). fold n.
  unfold frec at 1 2. rewrite loc_of_shr_record_of_loc, shr_m_of_loc.
  fold (rne N (D * 2 ^ n)). fold m.
  assert (Hp : 0 < 2 ^ n) by (apply Z.pow_pos_nonneg; lia).
  assert (Hm : 0 <= m).
  { pose proof (rne_spec N (D * 2 ^ n) HN ltac:(nia)) as [[H _] _].
    assert (0 <= N / (D * 2 ^ n)) by (apply Z.div_pos; nia). fold m in H. lia. }
  rewrite <- (floc_1 m). rewrite <- (Z.div_1_r m) at 1.
  rewrite (shr_fexp_frec m 1 (e + n) Hm ltac:(lia)).
  rewrite Z.div_1_r. fold n2. unfold frec. rewrite shr_m_of_loc, Z.mul_1_l.
  reflexivity.
Qed.

(** ** Real values of floats *)
Local Open Scope R_scope.

Lemma pow2_pos (e : Z) : 0 < pow2 e.
Proof. apply powerRZ_lt. lra. Qed.

Lemma pow2_add (a b : Z) : pow2 (a + b) = pow2 a * pow2 b.
Proof. apply powerRZ_add. lra. Qed.

Lemma pow2_IZR (k : Z) : (0 <= k)%Z -> pow2 k = IZR (2 ^ k).
Proof.
  intros Hk. unfold pow2. destruct k as [|p|p]; [reflexivity| |lia].
  cbn [powerRZ]. rewrite pow_IZR. f_equal. now rewrite positive_nat_Z.
Qed.

Lemma pow2_ge_1 (k : Z) : (0 <= k)%Z -> 1 <= pow2 k.
Proof.
  intros Hk. rewrite pow2_IZR by assumption. apply IZR_le.
  assert (0 < 2 ^ k)%Z by (apply Z.pow_pos_nonneg; lia). lia.
Qed.

Lemma pow2_le (a b : Z) : (a <= b)%Z -> pow2 a <= pow2 b.
Proof.
  intros H. replace b with (a + (b - a))%Z by lia. rewrite pow2_add.
  pose proof (pow2_pos a). pose proof (pow2_ge_1 (b - a) ltac:(lia)). nra.
Qed.

Lemma pow2_lt (a b : Z) : (a < b)%Z -> pow2 a < pow2 b.
Proof.
  intros H. replace b with (a + 1 + (b - a - 1))%Z by lia. rewrite !pow2_add.
  pose proof (pow2_pos a). pose proof (pow2_ge_1 (b - a - 1) ltac:(lia)).
  change (pow2 1) with (2 * 1). nra.
Qed.

Lemma pow2_lt_inv (a b : Z) : pow2 a < pow2 b -> (a < b)%Z.
Proof.
  intros H. destruct (Z.lt_ge_cases a b) as [|Hge]; [assumption|].
  pose proof (pow2_le b a Hge). lra.
Qed.

Lemma pow2_succ (a : Z) : pow2 (a + 1) = 2 * pow2 a.
Proof. rewrite pow2_add. change (pow2 1) with (2 * 1). ring. Qed.

Lemma pow2_pred (a : Z) : pow2 (a - 1) = pow2 a / 2.
Proof. replace a with (a - 1 + 1)%Z at 2 by lia. rewrite pow2_succ. field. Qed.

Lemma pow2_opp (a : Z) : pow2 (- a) = / pow2 a.
Proof. unfold pow2. apply powerRZ_neg'. Qed.

Lemma rne_R (N D : Z) : (0 <= N)%Z -> (0 < D)%Z ->
  Rabs (IZR (rne N D) - IZR N / IZR D) <= / 2.
Proof.
  intros HN HD. destruct (rne_spec N D HN HD) as [_ H].
  assert (HD' : 0 < IZR D) by now apply IZR_lt.
  apply Z.abs_le in H. destruct H as [H1 H2].
  apply IZR_le in H1, H2.
  rewrite opp_IZR in H1. rewrite minus_IZR, !mult_IZR in H1, H2.
  apply Rabs_le.
  replace (IZR (rne N D) - IZR N / IZR D)
    with ((2 * IZR (rne N D) * IZR D - 2 * IZR N) / (2 * IZR D)) by (field;
      lra).
  split.
  - apply Rmult_le_reg_r with (2 * IZR D); [lra|].
    replace ((2 * IZR (rne N D) * IZR D - 2 * IZR N) / (2 * IZR D) * (2 * IZR D))
      with (2 * IZR (rne N D) * IZR D - 2 * IZR N) by (field; lra). lra.
  - apply Rmult_le_reg_r with (2 * IZR D); [lra|].
    replace ((2 * IZR (rne N D) * IZR D - 2 * IZR N) / (2 * IZR D) * (2 * IZR D))
      with (2 * IZR (rne N D) * IZR D - 2 * IZR N) by (field; lra).
    replace (/ 2 * (2 * IZR D)) with (IZR D) by field. lra.
Qed.

Local Open Scope Z_scope.

Lemma floor_after_shift_lt (N D e : Z) : 0 <= N -> 0 < D ->
  let n := Z.max 0 (fexp (Zdigits2 (N / D) + e) - e) in
  N / (D * 2 ^ n) < 2 ^ 53.
Proof.
  intros HN HD n.
  assert (Hn : 0 <= n) by (subst n; lia).
  assert (Hp : 0 < 2 ^ n) by (apply Z.pow_pos_nonneg; lia).
  rewrite <- Z.div_div by lia.
  apply Z.div_lt_upper_bound; [assumption|].
  assert (Hq : 0 <= N / D) by (apply Z.div_pos; lia).
  destruct (Z.eq_dec (N / D) 0) as [E|E].
  - rewrite E. lia.
  - destruct (Zdigits2_bounds (N / D) ltac:(lia)) as [_ Hhi].
    assert (Hd : Zdigits2 (N / D) <= n + 53).
    { subst n. rewrite fexp_eq. lia. }
    assert (2 ^ Zdigits2 (N / D) <= 2 ^ (n + 53)) by (apply Z.pow_le_mono_r;
      lia).
    rewrite Z.pow_add_r in H by lia. lia.
Qed.

Lemma Zdigits2_le_53 (m : Z) : 0 < m < 2 ^ 53 -> Zdigits2 m <= 53.
Proof.
  intros [Hm Hlt]. destruct (Zdigits2_bounds m Hm) as [Hlo _].
  destruct (Z.le_gt_cases (Zdigits2 m) 53) as [|Hgt]; [assumption|].
  assert (2 ^ 53 <= 2 ^ (Zdigits2 m - 1)) by (apply Z.pow_le_mono_r; lia). lia.
Qed.

Lemma binary_round_aux_spec (sx : bool) (N D e : Z) : 0 <= N -> 0 < D ->
  let n := Z.max 0 (fexp (Zdigits2 (N / D) + e) - e) in
  let m := rne N (D * 2 ^ n) in
  exists m'' e'' : Z,
    binary_round_aux prec emax sx (N / D) e (floc N D) = pack sx m'' e''
    /\ 0 <= m'' < 2 ^ 53
    /\ ((m'' = m /\ e'' = e + n) \/ (m = 2 ^ 53 /\ m'' = 2 ^ 52 /\ e'' = e + n + 1)).
Proof.
  intros HN HD n m.
  rewrite (binary_round_aux_frec sx N D e HN HD). fold n. fold m.
  assert (Hn : 0 <= n) by (subst n; lia).
  assert (Hp : 0 < 2 ^ n) by (apply Z.pow_pos_nonneg; lia).
  assert (Hfloor : N / (D * 2 ^ n) < 2 ^ 53)
    by apply (floor_after_shift_lt N D e HN HD).
  assert (Hfloor0 : 0 <= N / (D * 2 ^ n)) by (apply Z.div_pos; nia).
  destruct (rne_spec N (D * 2 ^ n) HN ltac:(nia)) as [[Hm1 Hm2] _].
    fold m in Hm1, Hm2.
  assert (He' : -1074 <= e + n) by (subst n; rewrite fexp_eq; lia).
  destruct (Z.eq_dec m (2 ^ 53)) as [E|E].
  - exists (2 ^ 52), (e + n + 1). rewrite E.
    change (Zdigits2 (2 ^ 53)) with 54. rewrite fexp_eq.
    replace (Z.max 0 (Z.max (54 + (e + n) - 53) (-1074) - (e + n))) with 1
      by lia.
    split; [reflexivity|]. split; [split; [discriminate|reflexivity]|]. right.
      auto.
  - exists m, (e + n).
    assert (Hn2 : Z.max 0 (fexp (Zdigits2 m + (e + n)) - (e + n)) = 0).
    { destruct (Z.eq_dec m 0) as [->|Hm0].
      - cbn [Zdigits2]. rewrite fexp_eq. lia.
      - pose proof (Zdigits2_le_53 m ltac:(lia)). rewrite fexp_eq. lia. }
    rewrite Hn2. change (2 ^ 0) with 1. rewrite Z.div_1_r, Z.add_0_r.
    split; [reflexivity|]. split; [lia|]. left. auto.
Qed.

Local Open Scope R_scope.

(** The value of a rounded result and its distance to the exact one. *)
Lemma binary_round_aux_value (sx : bool) (N D e : Z) :
  (0 <= N)%Z -> (0 < D)%Z ->
  let n := Z.max 0 (fexp (Zdigits2 (N / D) + e) - e) in
  exists m'' e'' : Z,
    binary_round_aux prec emax sx (N / D) e (floc N D) = pack sx m'' e''
    /\ (0 <= m'' < 2 ^ 53)%Z
    /\ (e + n <= e'')%Z
    /\ ((2 ^ 52 <= N / (D * 2 ^ n))%Z -> (2 ^ 52 <= m'')%Z)
    /\ (D = 1%Z -> n = 0%Z -> IZR m'' * pow2 e'' = IZR N * pow2 e)
    /\ Rabs (IZR m'' * pow2 e'' - IZR N / IZR D * pow2 e) <= pow2 (e + n) / 2.
Proof.
  intros HN HD n.
  destruct (binary_round_aux_spec sx N D e HN HD) as (m'' & e'' & Heq & Hm & Hcase).
  fold n in Hcase. set (m := rne N (D * 2 ^ n)) in *.
  assert (Hn : (0 <= n)%Z) by (subst n; lia).
  assert (Hp : (0 < 2 ^ n)%Z) by (apply Z.pow_pos_nonneg; lia).
  destruct (rne_spec N (D * 2 ^ n) HN ltac:(nia)) as [[Hm1 Hm2] _].
    fold m in Hm1, Hm2.
  assert (Hval : IZR m'' * pow2 e'' = IZR m * pow2 (e + n)).
  { destruct Hcase as [[-> ->]|(Hm53 & -> & ->)]; [reflexivity|].
    rewrite Hm53, pow2_succ. rewrite <- !pow2_IZR by lia.
    change (pow2 53) with (2 * pow2 52). ring. }
  exists m'', e''. split; [exact Heq|]. split; [exact Hm|].
  split; [destruct Hcase as [[_ ->]|(_ & _ & ->)]; lia|].
  split; [destruct Hcase as [[-> _]|(_ & -> & _)]; lia|].
  split.
  - intros -> Hn0. rewrite Hval. unfold m. rewrite Hn0.
    change (2 ^ 0)%Z with 1%Z. rewrite Z.mul_1_l, rne_exact, Z.add_0_r.
      reflexivity.
  - rewrite Hval.
    pose proof (rne_R N (D * 2 ^ n) HN ltac:(nia)) as Herr. fold m in Herr.
    rewrite mult_IZR, <- pow2_IZR in Herr by lia.
    assert (HD' : 0 < IZR D) by now apply IZR_lt.
    pose proof (pow2_pos n) as Hpn. pose proof (pow2_pos e) as Hpe.
    rewrite pow2_add.
    replace (IZR m * (pow2 e * pow2 n) - IZR N / IZR D * pow2 e)
      with ((IZR m - IZR N / (IZR D * pow2 n)) * (pow2 e * pow2 n)) by (field;
        lra).
    rewrite Rabs_mult, (Rabs_pos_eq (pow2 e * pow2 n)) by nra.
    assert (0 < pow2 e * pow2 n) by nra. nra.
Qed.

Lemma SF2R_pack (sx : bool) (m e : Z) :
  (0 <= m)%Z -> (0 < m -> e <= 971)%Z ->
  SF_finite (pack sx m e) = true /\ SF2R (pack sx m e) = sign_R sx * (IZR m * pow2 e).
Proof.
  intros Hm He. destruct m as [|p|p]; [| |lia]; cbn [pack].
  - split; [reflexivity|]. cbn. ring.
  - destruct (Z.leb_spec e 971); [|lia]. split; [reflexivity|].
    cbn [SF2R]. unfold sign_R. ring.
Qed.

Lemma Rabs_bound (x b : R) : Rabs x <= b -> - b <= x <= b.
Proof. unfold Rabs. destruct (Rcase_abs x); lra. Qed.

Lemma SF2R_finite (s : bool) (m : positive) (e : Z) :
  SF2R (S754_finite s m e) = sign_R s * (IZR (Zpos m) * pow2 e).
Proof. cbn [SF2R]. unfold sign_R. ring. Qed.

Lemma pow2_9 : pow2 9 = 512.
Proof. now rewrite pow2_IZR by lia. Qed.

Lemma pow2_10 : pow2 10 = 1024.
Proof. now rewrite pow2_IZR by lia. Qed.

Lemma sign_R_xorb (a b : bool) : sign_R (xorb a b) = sign_R a * sign_R b.
Proof. destruct a, b; cbn; ring. Qed.

Lemma Rabs_sign_mul (s : bool) (x : R) : Rabs (sign_R s * x) = Rabs x.
Proof.
  destruct s; cbn.
  - replace (-1 * x) with (- x) by ring. apply Rabs_Ropp.
  - now rewrite Rmult_1_l.
Qed.

(** ** The product [x * scale] *)

(** The product of two finite floats whose exact product is at most
    512 in magnitude: finite, and within [2^-44] of the exact product. *)
Lemma SFmul_value (sx sy : bool) (mx my : positive) (ex ey : Z) :
  IZR (Zpos mx) * IZR (Zpos my) * pow2 (ex + ey) <= 512 ->
  let a := S754_finite sx mx ex in
  let b := S754_finite sy my ey in
  SF_finite (SFmul prec emax a b) = true
  /\ Rabs (SF2R (SFmul prec emax a b) - SF2R a * SF2R b) <= pow2 (-44).
Proof.
  intros Hv a b. subst a b. cbn [SFmul].
  set (N := Z.pos (mx * my)). set (e := (ex + ey)%Z).
  assert (HN : (0 < N)%Z) by (subst N; lia).
  assert (HNR : IZR N = IZR (Z.pos mx) * IZR (Z.pos my)).
  { subst N. now rewrite Pos2Z.inj_mul, mult_IZR. }
  rewrite <- HNR in Hv. fold e in Hv.
  rewrite <- (Z.div_1_r N), <- (floc_1 N).
  destruct (binary_round_aux_value (xorb sx sy) N 1 e ltac:(lia) ltac:(lia))
    as (m'' & e'' & Heq & Hm & He'' & _ & Hexact & Herr).
  rewrite Heq. clear Heq.
  rewrite Z.div_1_r in *. replace (IZR N / 1) with (IZR N) in Herr by field.
  set (n := Z.max 0 (fexp (Zdigits2 N + e) - e)) in *.
  pose proof (pow2_pos e) as Hpe. pose proof (pow2_pos e'') as Hpe''.
  assert (Hbound : Rabs (IZR m'' * pow2 e'' - IZR N * pow2 e) <= pow2 (-44)).
  { destruct (Z.eq_dec n 0) as [Hn0|Hn0].
    - rewrite (Hexact eq_refl Hn0). rewrite Rminus_diag, Rabs_R0.
      apply Rlt_le, pow2_pos.
    - eapply Rle_trans; [exact Herr|].
      rewrite <- pow2_pred.
      destruct (Z.le_gt_cases (-1074) (Zdigits2 N + e - 53)) as [Hnorm|Hsub].
      + assert (En : (e + n = Zdigits2 N + e - 53)%Z) by (subst n;
        rewrite fexp_eq in *; lia).
        rewrite En.
        destruct (Zdigits2_bounds N HN) as [Hlo _].
        assert (Hd : (1 <= Zdigits2 N)%Z) by (destruct N; cbn; lia).
        apply IZR_le in Hlo. rewrite <- pow2_IZR in Hlo by lia.
        replace (Zdigits2 N + e - 53 - 1)%Z
          with ((Zdigits2 N - 1) + e + (-53))%Z by lia.
        rewrite !pow2_add.
        replace (-44)%Z with (9 + (-53))%Z by lia. rewrite (pow2_add 9), pow2_9.
        pose proof (pow2_pos (-53)). pose proof (pow2_pos (Zdigits2 N - 1)).
        apply Rmult_le_compat_r; [lra|]. nra.
      + assert (En : (e + n = -1074)%Z) by (subst n; rewrite fexp_eq in *; lia).
        rewrite En. apply pow2_le. lia. }
  assert (Hfin : (0 < m'' -> e'' <= 971)%Z).
  { intros Hpos.
    assert (IZR m'' * pow2 e'' <= 513).
    { apply Rabs_bound in Hbound. assert (pow2 (-44) <= 1).
      { change 1 with (pow2 0). apply pow2_le. lia. } lra. }
    assert (1 <= IZR m'') by (apply IZR_le; lia).
    assert (Hlt : pow2 e'' < pow2 10) by (rewrite pow2_10; nra).
    apply pow2_lt_inv in Hlt. lia. }
  destruct (SF2R_pack (xorb sx sy) m'' e'' ltac:(lia) Hfin) as [Hf Hval].
  split; [exact Hf|]. rewrite Hval, !SF2R_finite.
  match goal with |- Rabs ?t <= _ =>
    assert (E : t = sign_R (xorb sx sy) * (IZR m'' * pow2 e'' - IZR N * pow2 e))
  end.
  { rewrite sign_R_xorb, HNR. unfold e. rewrite pow2_add. ring. }
  rewrite E.
  now rewrite Rabs_sign_mul.
Qed.

Local Open Scope Z_scope.

(** ** The quotient [511.0 / max_val] *)

Lemma new_location_floc (N D : Z) : 0 < D ->
  new_location D (N mod D) = floc N D.
Proof.
  intros HD. unfold new_location, floc.
  assert (Hr : 0 <= N mod D < D) by (apply Z.mod_pos_bound; lia).
  remember (N mod D) as r.
  destruct (Z.even D) eqn:Ev.
  - unfold new_location_even. reflexivity.
  - unfold new_location_odd. destruct (r =? 0); [reflexivity|].
    assert (Hodd : Z.odd D = true) by (rewrite <- Z.negb_even, Ev; reflexivity).
    apply Z.odd_spec in Hodd. destruct Hodd as [k Hk].
    f_equal.
    destruct (Z.compare_spec (2 * r + 1) D);
      destruct (Z.compare_spec (2 * r) D);
      try reflexivity; lia.
Qed.

Lemma div_eucl_div_mod (N D : Z) : Z.div_eucl N D = (N / D, N mod D).
Proof. unfold Z.div, Z.modulo. now destruct (Z.div_eucl N D). Qed.

Lemma SFdiv_core_511 (mp : positive) (ep : Z) :
  Zdigits2 (Z.pos mp) = 53 -> ep <= 971 ->
  let N := Z.pos m511 * 2 ^ 53 in
  SFdiv_core_binary prec emax (Z.pos m511) (-44) (Z.pos mp) ep
  = (N / Z.pos mp, -97 - ep, floc N (Z.pos mp)).
Proof.
  intros Hd Hep N. unfold SFdiv_core_binary. rewrite Hd.
  change (Zdigits2 (Z.pos m511)) with 53.
  rewrite fexp_eq.
  replace (Z.min (Z.max (53 + -44 - (53 + ep) - 53) (-1074)) (-44 - ep))
    with (-97 - ep) by lia.
  replace (-44 - ep - (-97 - ep)) with 53 by lia.
  rewrite Z.shiftl_mul_pow2 by lia. fold N.
  rewrite div_eucl_div_mod, new_location_floc by lia. reflexivity.
Qed.

Local Open Scope R_scope.

(** The quotient [511.0 / p] for a normal positive [p] of at least
    [2^-1015]: finite, positive, and within relative error [2^-53] of
    the exact quotient. *)
Lemma SFdiv_511_value (mp : positive) (ep : Z) :
  Zdigits2 (Z.pos mp) = 53%Z -> (-1067 <= ep <= 971)%Z ->
  let P := IZR (Z.pos mp) * pow2 ep in
  exists (ms : positive) (es : Z),
    SFdiv prec emax (S754_finite false m511 (-44)) (S754_finite false mp ep)
    = S754_finite false ms es
    /\ Rabs (IZR (Z.pos ms) * pow2 es - 511 / P) <= 511 / P * pow2 (-53).
Proof.
  intros Hd Hep P. cbn [SFdiv xorb].
  rewrite (SFdiv_core_511 mp ep Hd ltac:(lia)).
  set (N := (Z.pos m511 * 2 ^ 53)%Z). set (D := Z.pos mp).
    set (e := (-97 - ep)%Z).
  fold D in Hd.
  assert (HN : (0 < N)%Z) by (subst N; lia).
  assert (HD : (0 < D)%Z) by (subst D; lia).
  destruct (Zdigits2_bounds D HD) as [HDlo HDhi]. rewrite Hd in HDlo, HDhi.
  change (2 ^ (53 - 1))%Z with 4503599627370496%Z in HDlo.
  change (2 ^ 53)%Z with 9007199254740992%Z in HDhi.
  assert (HNval : N = 80971182089578153020601917243392%Z) by reflexivity.
  set (q := (N / D)%Z).
  assert (Hq : (2 ^ 52 <= q < 2 ^ 54)%Z).
  { subst q. split.
    - apply Z.div_le_lower_bound; [lia|].
      change (2 ^ 52)%Z with 4503599627370496%Z. lia.
    - apply Z.div_lt_upper_bound; [lia|].
      change (2 ^ 54)%Z with 18014398509481984%Z. lia. }
  assert (Hqpos : (0 < q)%Z) by (change (2 ^ 52)%Z with 4503599627370496%Z
    in Hq; lia).
  destruct (Zdigits2_bounds q Hqpos) as [Hdq1 Hdq2].
  assert (Hdq : (53 <= Zdigits2 q <= 54)%Z).
  { split.
    - destruct (Z.le_gt_cases 53 (Zdigits2 q)); [assumption|].
      assert (2 ^ Zdigits2 q <= 2 ^ 52)%Z by (apply Z.pow_le_mono_r; lia). lia.
    - destruct (Z.le_gt_cases (Zdigits2 q) 54); [assumption|].
      assert (2 ^ 54 <= 2 ^ (Zdigits2 q - 1))%Z by (apply Z.pow_le_mono_r;
        lia). lia. }
  destruct (binary_round_aux_value false N D e ltac:(lia) HD)
    as (m'' & e'' & Heq & Hm & He'' & Hnormal & _ & Herr).
  fold q in Heq, Hnormal, Herr, He''.
  set (n := Z.max 0 (fexp (Zdigits2 q + e) - e)) in *.
  assert (Hn : (n = Zdigits2 q - 53)%Z) by (subst n e; rewrite fexp_eq; lia).
  assert (Hpn : (0 < 2 ^ n)%Z) by (apply Z.pow_pos_nonneg; lia).
  assert (Hm52 : (2 ^ 52 <= m'')%Z).
  { apply Hnormal. apply Z.div_le_lower_bound; [nia|].
    assert (D * q <= N)%Z by (subst q; apply Z.mul_div_le; lia).
    replace (D * 2 ^ n * 2 ^ 52)%Z with (D * 2 ^ (Zdigits2 q - 1))%Z.
    - nia.
    - rewrite <- Z.mul_assoc, <- Z.pow_add_r by lia. do 2 f_equal. lia. }
  (* the exact quotient *)
  pose proof (pow2_pos ep) as Hpep. pose proof (pow2_pos e) as Hpe.
  assert (HDR : 0 < IZR D) by now apply IZR_lt.
  assert (HP : 0 < P) by (subst P; fold D; nra).
  assert (Hv : IZR N / IZR D * pow2 e = 511 / P).
  { subst P. fold D. unfold e.
    replace (-97 - ep)%Z with (-97 + - ep)%Z by lia.
    rewrite pow2_add, pow2_opp.
    rewrite HNval.
    assert (E : IZR 80971182089578153020601917243392 * pow2 (-97) = 511).
    { replace (pow2 (-97)) with (/ pow2 97) by (symmetry; exact (pow2_opp 97)).
      rewrite pow2_IZR by lia.
      change (2 ^ 97)%Z with 158456325028528675187087900672%Z. lra. }
    replace (IZR 80971182089578153020601917243392 / IZR D * (pow2 (-97) * / pow2 ep))
      with (IZR 80971182089578153020601917243392 * pow2 (-97) / (IZR D * pow2 ep))
      by (field; lra).
    now rewrite E. }
  rewrite Hv in Herr.
  (* the half ulp is at most the relative error bound *)
  assert (Hulp : pow2 (e + n) / 2 <= 511 / P * pow2 (-53)).
  { rewrite <- Hv.
    assert (IZR q <= IZR N / IZR D).
    { apply Rmult_le_reg_r with (IZR D); [assumption|].
      replace (IZR N / IZR D * IZR D) with (IZR N) by (field; lra).
      rewrite <- mult_IZR. apply IZR_le. subst q. rewrite Z.mul_comm.
      apply Z.mul_div_le. lia. }
    apply IZR_le in Hdq1. rewrite <- pow2_IZR in Hdq1 by lia.
    rewrite <- pow2_pred.
    replace (e + n - 1)%Z with ((Zdigits2 q - 1) + e + (-53))%Z by lia.
    rewrite !pow2_add. pose proof (pow2_pos (-53)).
      pose proof (pow2_pos (Zdigits2 q - 1)).
    apply Rmult_le_compat_r; [lra|]. nra. }
  assert (Hbound : Rabs (IZR m'' * pow2 e'' - 511 / P) <= 511 / P * pow2 (-53)) by lra.
  (* no overflow *)
  assert (Hfin : (e'' <= 971)%Z).
  { assert (HPlo : pow2 (-1015) <= P).
    { subst P. fold D. apply IZR_le in HDlo.
      replace (-1015)%Z with (52 + -1067)%Z by lia. rewrite pow2_add.
      rewrite pow2_IZR by lia. change (2 ^ 52)%Z with 4503599627370496%Z.
      pose proof (pow2_le (-1067) ep ltac:(lia)).
        pose proof (pow2_pos (-1067)). nra. }
    assert (Hq511 : 511 / P <= 511 * pow2 1015).
    { unfold Rdiv. apply Rmult_le_compat_l; [lra|].
      replace (pow2 1015) with (/ pow2 (-1015)).
      - apply Rinv_le_contravar; [apply pow2_pos|assumption].
      - replace (pow2 (-1015)) with (/ pow2 1015) by (symmetry;
        exact (pow2_opp 1015)).
        apply Rinv_inv. }
    apply Rabs_bound in Hbound.
    assert (H53 : pow2 (-53) <= / 1024).
    { rewrite <- pow2_10.
      replace (/ pow2 10) with (pow2 (-10)) by exact (pow2_opp 10).
      apply pow2_le. lia. }
    pose proof (pow2_pos (-53)) as H53'.
    assert (Hv0 : 0 < 511 / P) by (apply Rdiv_lt_0_compat; lra).
    assert (Hvt : 511 / P * pow2 (-53) <= 511 / P * / 1024)
      by (apply Rmult_le_compat_l; lra).
    pose proof (pow2_pos 1015) as HA.
    assert (Hle : IZR m'' * pow2 e'' < 512 * pow2 1015) by lra.
    apply IZR_le in Hm52. rewrite <- pow2_IZR in Hm52 by lia.
    pose proof (pow2_pos e'') as He''pos.
    assert (Hlow : pow2 52 * pow2 e'' <= IZR m'' * pow2 e'')
      by (apply Rmult_le_compat_r; lra).
    assert (Hlt : pow2 52 * pow2 e'' < pow2 9 * pow2 1015) by (rewrite pow2_9;
      lra).
    rewrite <- !pow2_add in Hlt. apply pow2_lt_inv in Hlt. lia. }
  destruct m'' as [|ms|ms]; [change (2 ^ 52)%Z with 4503599627370496%Z
    in Hm52; lia| |lia].
  exists ms, e''. rewrite Heq. cbn [pack].
  destruct (Z.leb_spec e'' 971); [|lia]. split; [reflexivity|exact Hbound].
Qed.

Local Open Scope Z_scope.

(** ** Rounding to an integer *)

Lemma round_half_even_dyadic_rne (m p : positive) :
  Py.round_half_even_dyadic m (Z.neg p) = rne (Z.pos m) (2 ^ Z.pos p).
Proof.
  unfold Py.round_half_even_dyadic, rne, floc, round_nearest_even.
  change (Z.pow_pos 2 p) with (2 ^ Z.pos p).
  assert (Hd : 0 < 2 ^ Z.pos p) by (apply Z.pow_pos_nonneg; lia).
  assert (Hr : 0 <= Z.pos m mod 2 ^ Z.pos p < 2 ^ Z.pos p)
    by (apply Z.mod_pos_bound; lia).
  remember (Z.pos m mod 2 ^ Z.pos p) as r. remember (2 ^ Z.pos p) as d.
  remember (Z.pos m / d) as q.
  destruct (Z.eqb_spec r 0) as [->|Hr0].
  - change (2 * 0) with 0.
    destruct (Z.compare_spec 0 d); first [reflexivity | lia].
  - remember (2 * r) as t. destruct (Z.compare_spec t d); reflexivity.
Qed.

Local Open Scope R_scope.

Lemma round_half_even_dyadic_R (m : positive) (e : Z) :
  Rabs (IZR (Py.round_half_even_dyadic m e) - IZR (Z.pos m) * pow2 e) <= / 2.
Proof.
  destruct e as [|p|p].
  - cbn [Py.round_half_even_dyadic]. change (pow2 0) with 1.
    rewrite Z.pow_0_r, Z.mul_1_r, Rmult_1_r, Rminus_diag, Rabs_R0. lra.
  - cbn [Py.round_half_even_dyadic]. rewrite mult_IZR, <- pow2_IZR by lia.
    rewrite Rminus_diag, Rabs_R0. lra.
  - rewrite round_half_even_dyadic_rne.
    assert (Hd : (0 < 2 ^ Z.pos p)%Z) by (apply Z.pow_pos_nonneg; lia).
    pose proof (rne_R (Z.pos m) (2 ^ Z.pos p) ltac:(lia) Hd) as H.
    replace (pow2 (Z.neg p)) with (/ IZR (2 ^ Z.pos p)).
    + exact H.
    + rewrite <- pow2_IZR by lia. symmetry. exact (pow2_opp (Z.pos p)).
Qed.

(** [round] on a float that is neither a NaN nor an infinity. *)
Lemma round_finite (x : float) :
  SF_finite (Prim2SF x) = true ->
  exists c : Z, Py.round x = Returned c /\ Rabs (IZR c - SF2R (Prim2SF x)) <= / 2.
Proof.
  unfold Py.round.
    destruct (Prim2SF x) as [s|s| |s m e]; try discriminate; intros _.
  - exists 0%Z. split; [reflexivity|]. cbn [SF2R].
    rewrite Rminus_diag, Rabs_R0. lra.
  - eexists. split; [reflexivity|]. rewrite SF2R_finite.
    pose proof (round_half_even_dyadic_R m e) as H.
    destruct s; cbn [sign_R].
    + rewrite opp_IZR.
      replace (- IZR (Py.round_half_even_dyadic m e) - -1 * (IZR (Z.pos m) * pow2 e))
        with (- (IZR (Py.round_half_even_dyadic m e) - IZR (Z.pos m) * pow2 e)) by ring.
      now rewrite Rabs_Ropp.
    + now rewrite Rmult_1_l.
Qed.

Local Open Scope Z_scope.

(** ** Order and maximum *)

(** What validity says about a finite float. *)
Lemma valid_binary_bounds (s : bool) (m : positive) (e : Z) :
  valid_binary (S754_finite s m e) = true ->
  -1074 <= e <= 971 /\ Z.pos m < 2 ^ 53
  /\ (-1074 < e -> Zdigits2 (Z.pos m) = 53 /\ 2 ^ 52 <= Z.pos m).
Proof.
  unfold SpecFloat.valid_binary, bounded, canonical_mantissa.
  intros H. apply andb_true_iff in H. destruct H as [Hc He].
  apply Z.eqb_eq in Hc. apply Z.leb_le in He. rewrite fexp_eq in Hc.
  change (emax - prec) with 971 in He.
  destruct (digits2_pos_bounds m) as [Hlo Hhi].
  assert (Hd : Z.pos (digits2_pos m) <= 53) by lia.
  split; [lia|]. split.
  - assert (2 ^ Z.pos (digits2_pos m) <= 2 ^ 53) by (apply Z.pow_le_mono_r;
    lia). lia.
  - intros Hgt. assert (Hd53 : Z.pos (digits2_pos m) = 53) by lia.
    split; [exact Hd53|]. rewrite Hd53 in Hlo. exact Hlo.
Qed.

Local Open Scope R_scope.

Lemma SF2R_nonneg (f : spec_float) : nonneg_valid f -> 0 <= SF2R f.
Proof.
  destruct f as [s|s| |[|] m e]; cbn [nonneg_valid]; try contradiction;
    intros _.
  - cbn. lra.
  - rewrite SF2R_finite. cbn [sign_R].
    pose proof (pow2_pos e).
      assert (0 < IZR (Z.pos m)) by (apply IZR_lt; lia). nra.
Qed.

Lemma finite_lt_exponent (m1 m2 : positive) (e1 e2 : Z) :
  valid_binary (S754_finite false m1 e1) = true ->
  valid_binary (S754_finite false m2 e2) = true ->
  (e1 < e2)%Z ->
  IZR (Z.pos m1) * pow2 e1 < IZR (Z.pos m2) * pow2 e2.
Proof.
  intros H1 H2 Hlt.
  destruct (valid_binary_bounds _ _ _ H1) as (He1 & Hm1 & _).
  destruct (valid_binary_bounds _ _ _ H2) as (He2 & _ & Hn2).
  destruct (Hn2 ltac:(lia)) as [_ Hm2].
  apply IZR_lt in Hm1. apply IZR_le in Hm2.
  rewrite <- pow2_IZR in Hm1, Hm2 by lia.
  pose proof (pow2_le (e1 + 1) e2 ltac:(lia)) as Hp. rewrite pow2_succ in Hp.
  pose proof (pow2_pos e1). pose proof (pow2_pos e2).
  change (pow2 53) with (2 * pow2 52) in Hm1. pose proof (pow2_pos 52).
  apply Rlt_le_trans with (2 * pow2 52 * pow2 e1); [nra|].
  apply Rle_trans with (pow2 52 * pow2 e2); [nra|].
  apply Rmult_le_compat_r; lra.
Qed.

(** [<] on nonnegative valid floats is the order of their values. *)
Lemma SFltb_nonneg (a b : spec_float) :
  nonneg_valid a -> nonneg_valid b ->
  if SFltb a b then SF2R a < SF2R b else SF2R b <= SF2R a.
Proof.
  intros Ha Hb. pose proof (SF2R_nonneg b Hb) as Hb0.
  destruct a as [sa|sa| |[|] ma ea]; cbn [nonneg_valid] in Ha;
    try contradiction;
  destruct b as [sb|sb| |[|] mb eb]; cbn [nonneg_valid] in Hb;
    try contradiction.
  - cbn. lra.
  - unfold SFltb. cbn [SFcompare]. rewrite SF2R_finite. cbn [SF2R sign_R].
    pose proof (pow2_pos eb).
      assert (0 < IZR (Z.pos mb)) by (apply IZR_lt; lia). nra.
  - unfold SFltb. cbn [SFcompare]. rewrite SF2R_finite. cbn [SF2R sign_R].
    pose proof (pow2_pos ea).
      assert (0 < IZR (Z.pos ma)) by (apply IZR_lt; lia). nra.
  - unfold SFltb. cbn [SFcompare]. rewrite !SF2R_finite. cbn [sign_R].
    rewrite !Rmult_1_l.
    destruct (Z.compare_spec ea eb) as [->|Hlt|Hgt].
    + fold (Pos.compare ma mb). pose proof (pow2_pos eb).
      destruct (Pos.compare_spec ma mb) as [->|Hm|Hm].
      * lra.
      * apply Rmult_lt_compat_r; [assumption|]. apply IZR_lt. lia.
      * apply Rmult_le_compat_r; [lra|]. apply IZR_le. lia.
    + now apply finite_lt_exponent.
    + apply Rlt_le. now apply finite_lt_exponent.
Qed.

Lemma abs_nonneg_valid (x : float) :
  SF_finite (Prim2SF x) = true ->
  nonneg_valid (Prim2SF (Py.abs x))
  /\ SF2R (Prim2SF (Py.abs x)) = Rabs (SF2R (Prim2SF x)).
Proof.
  intros Hf. unfold Py.abs. rewrite abs_spec.
  pose proof (Prim2SF_valid x) as Hv.
  destruct (Prim2SF x) as [s|s| |s m e]; try discriminate Hf;
    cbn [SFabs nonneg_valid].
  - split; [exact I|]. cbn [SF2R]. now rewrite Rabs_R0.
  - split; [exact Hv|]. rewrite !SF2R_finite, Rabs_sign_mul. cbn [sign_R].
    rewrite Rmult_1_l. symmetry. apply Rabs_pos_eq.
    pose proof (pow2_pos e).
      assert (0 < IZR (Z.pos m)) by (apply IZR_lt; lia). nra.
Qed.

(** The running maximum of nonnegative valid floats is one of them and
    bounds them all. *)
Lemma max_from_bound (items : list float) (maxval : float) :
  nonneg_valid (Prim2SF maxval) ->
  Forall (fun y => nonneg_valid (Prim2SF y)) items ->
  let p := Py.max_from maxval items in
  In p (maxval :: items)
  /\ Forall (fun y => SF2R (Prim2SF y) <= SF2R (Prim2SF p)) (maxval :: items).
Proof.
  intros Hacc Hitems. revert maxval Hacc.
  induction Hitems as [|y items Hy _ IH]; intros maxval Hacc p.
  - subst p. cbn [Py.max_from]. split; [now left|].
    constructor; [lra|constructor].
  - subst p. cbn [Py.max_from].
    pose proof (SFltb_nonneg _ _ Hacc Hy) as Hcmp.
    rewrite <- ltb_spec in Hcmp.
    destruct (maxval <? y)%float.
    + destruct (IH y Hy) as [Hin Hall]. split.
      * right. exact Hin.
      * inversion Hall as [|? ? Hy' Hrest]; subst.
        constructor; [lra|]. constructor; assumption.
    + destruct (IH maxval Hacc) as [Hin Hall]. split.
      * destruct Hin as [<-|Hin]; [now left|right; now right].
      * inversion Hall as [|? ? Hm' Hrest]; subst.
        constructor; [assumption|]. constructor; [lra|assumption].
Qed.

(** ** One code *)

Lemma min_peak_normal (p : float) :
  nonneg_valid (Prim2SF p) ->
  (min_peak <=? p)%float = true ->
  exists (mp : positive) (ep : Z),
    Prim2SF p = S754_finite false mp ep
    /\ Zdigits2 (Z.pos mp) = 53%Z /\ (-1067 <= ep <= 971)%Z.
Proof.
  intros Hp Hle. rewrite leb_spec in Hle.
  change (Prim2SF min_peak)
    with (S754_finite false 4503599627370496 (-1067)) in Hle.
  destruct (Prim2SF p) as [s|s| |[|] mp ep]; cbn [nonneg_valid] in Hp;
    try contradiction; try discriminate Hle.
  exists mp, ep. split; [reflexivity|].
  destruct (valid_binary_bounds _ _ _ Hp) as (He & _ & Hn).
  unfold SFleb in Hle. cbn [SFcompare] in Hle.
  assert (Hep : (-1067 <= ep)%Z).
  { destruct (Z.compare_spec (-1067) ep); first [lia | discriminate Hle]. }
  destruct (Hn ltac:(lia)) as [Hd _]. split; [exact Hd|lia].
Qed.

Lemma Prim2SF_511 : Prim2SF 511 = S754_finite false m511 (-44).
Proof. reflexivity. Qed.

(** Accuracy of one code: for a finite sample [x] of magnitude at most
    the peak [p], [round(x * (511.0 / p))] returns an integer within
    [1/2 + 2^-43] of the exact [x * 511 / p]. *)
Lemma code_accuracy (x p : float) :
  SF_finite (Prim2SF x) = true ->
  nonneg_valid (Prim2SF p) ->
  (min_peak <=? p)%float = true ->
  Rabs (SF2R (Prim2SF x)) <= SF2R (Prim2SF p) ->
  exists c : Z,
    Py.round (x * (511 / p))%float = Returned c
    /\ Rabs (IZR c - SF2R (Prim2SF x) * 511 / SF2R (Prim2SF p))
       <= / 2 + pow2 (-43).
Proof.
  intros Hx Hp Hmin Hle.
  destruct (min_peak_normal p Hp Hmin) as (mp & ep & Ep & Hd & Hep).
  destruct (SFdiv_511_value mp ep Hd Hep) as (ms & es & Ediv & Hdiv).
  assert (Escale : Prim2SF (511 / p)%float = S754_finite false ms es).
  { rewrite div_spec, Prim2SF_511, Ep. exact Ediv. }
  rewrite Ep in Hle |- *. rewrite SF2R_finite in Hle |- *.
    cbn [sign_R] in Hle |- *.
  rewrite Rmult_1_l in Hle |- *.
  set (P := IZR (Z.pos mp) * pow2 ep) in *.
  set (S := IZR (Z.pos ms) * pow2 es) in *.
  assert (HP : 0 < P).
  { subst P. pose proof (pow2_pos ep).
    assert (0 < IZR (Z.pos mp)) by (apply IZR_lt; lia). nra. }
  set (q := 511 / P) in *.
  assert (Hq : 0 < q) by (apply Rdiv_lt_0_compat; lra).
  assert (HPq : P * q = 511) by (subst q; field; lra).
  pose proof (pow2_pos (-53)) as Ht.
  assert (Ht' : 511 * pow2 (-53) <= pow2 (-44)).
  { replace (-44)%Z with (9 + -53)%Z by lia. rewrite pow2_add, pow2_9. lra. }
  assert (H43 : pow2 (-43) = 2 * pow2 (-44)).
  { replace (-43)%Z with (-44 + 1)%Z by lia. apply pow2_succ. }
  assert (H44 : pow2 (-44) <= 1) by (change 1 with (pow2 0); apply pow2_le;
    lia).
  apply Rabs_bound in Hdiv.
  set (X := SF2R (Prim2SF x)) in *.
  assert (HXq : Rabs X * q <= 511).
  { rewrite <- HPq. apply Rmult_le_compat_r; lra. }
  assert (HXS : Rabs (X * S - X * 511 / P) <= pow2 (-44)).
  { replace (X * S - X * 511 / P) with (X * (S - q)) by (subst q; field; lra).
    rewrite Rabs_mult.
    assert (Rabs (S - q) <= q * pow2 (-53)) by (apply Rabs_le; lra).
    pose proof (Rabs_pos X).
    apply Rle_trans with (Rabs X * (q * pow2 (-53))).
    - apply Rmult_le_compat_l; assumption.
    - nra. }
  assert (Hprod : Prim2SF (x * (511 / p))%float
                  = SFmul prec emax (Prim2SF x) (S754_finite false ms es)).
  { rewrite mul_spec, Escale. reflexivity. }
  assert (Hmul : SF_finite (Prim2SF (x * (511 / p))%float) = true
                 /\ Rabs (SF2R (Prim2SF (x * (511 / p))%float) - X * S) <= pow2 (-44)).
  { rewrite Hprod. subst X.
    destruct (Prim2SF x) as [s|s| |sx mx ex]; try discriminate Hx.
    - cbn [SFmul SF_finite SF2R]. split; [reflexivity|].
      rewrite Rmult_0_l, Rminus_diag, Rabs_R0. lra.
    - assert (Hb : IZR (Z.pos mx) * IZR (Z.pos ms) * pow2 (ex + es) <= 512).
      { rewrite SF2R_finite, Rabs_sign_mul in HXq.
        pose proof (pow2_pos ex).
          assert (0 < IZR (Z.pos mx)) by (apply IZR_lt; lia).
        rewrite Rabs_pos_eq in HXq by nra.
        rewrite pow2_add.
        replace (IZR (Z.pos mx) * IZR (Z.pos ms) * (pow2 ex * pow2 es))
          with (IZR (Z.pos mx) * pow2 ex * S) by (subst S; ring).
        assert (0 < IZR (Z.pos mx) * pow2 ex) by nra.
        assert (S <= q + q * pow2 (-53)) by lra.
        apply Rle_trans with (IZR (Z.pos mx) * pow2 ex * (q + q * pow2 (-53))).
        - apply Rmult_le_compat_l; lra.
        - nra. }
      destruct (SFmul_value sx false mx ms ex es Hb) as [Hf Herr].
      split; [exact Hf|]. rewrite (SF2R_finite false ms es) in Herr.
      cbn [sign_R] in Herr. rewrite Rmult_1_l in Herr. exact Herr. }
  destruct Hmul as [Hfin Herr].
  destruct (round_finite _ Hfin) as (c & Hc & Hround).
  exists c. split; [exact Hc|].
  apply Rabs_bound in Hround, Herr, HXS. apply Rabs_le. lra.
Qed.

Local Open Scope Z_scope.

(** ** The whole sequence *)

Lemma comprehension_Forall2 {A B} (f : A -> outcome B) (R : A -> B -> Prop)
  (l : list A) :
  Forall (fun a => exists b, f a = Returned b /\ R a b) l ->
  exists bs, Py.comprehension f l = Returned bs /\ Forall2 R l bs.
Proof.
  induction 1 as [|a l (b & Hb & HR) _ (bs & Hbs & HF)].
  - exists []. split; [reflexivity|constructor].
  - exists (b :: bs). cbn [Py.comprehension]. rewrite Hb, Hbs.
    split; [reflexivity|now constructor].
Qed.

Lemma Forall2_In_l {A B} (R : A -> B -> Prop) (l : list A) (l' : list B) (a : A) :
  Forall2 R l l' -> In a l -> exists b, In b l' /\ R a b.
Proof.
  induction 1 as [|x y l l' Hxy _ IH]; intros Hin; [contradiction|].
  destruct Hin as [<-|Hin].
  - exists y. split; [now left|assumption].
  - destruct (IH Hin) as (b & Hb & HR). exists b. split; [now right|assumption].
Qed.

Local Open Scope R_scope.

Lemma pow2_m43_small : pow2 (-43) < / 4.
Proof.
  replace (/ 4) with (pow2 (-2)).
  - apply pow2_lt. lia.
  - replace (pow2 (-2)) with (/ pow2 2) by (symmetry; exact (pow2_opp 2)).
    now rewrite pow2_IZR by lia.
Qed.

Lemma IZR_within_one (c k : Z) : Rabs (IZR c - IZR k) < 1 -> c = k.
Proof.
  intros H. apply Rabs_def2 in H. destruct H as [H1 H2].
  rewrite <- minus_IZR in H1, H2.
  change 1 with (IZR 1) in H1. change (- (1)) with (IZR (-1)) in H2.
  apply lt_IZR in H1. apply lt_IZR in H2. lia.
Qed.

(** The facts about the peak that the encoding relies on. *)
Lemma peak_facts (data : list float) (peak : float) :
  Forall (fun x => finite_float x = true) data ->
  Py.max (map Py.abs data) = Returned peak ->
  nonneg_valid (Prim2SF peak)
  /\ (exists x, In x data /\ Py.abs x = peak)
  /\ Forall (fun x => Rabs (float_value x) <= float_value peak) data.
Proof.
  intros Hfin Hmax. destruct data as [|x0 data]; [discriminate Hmax|].
  cbn [map Py.max] in Hmax. injection Hmax as Hmax.
  assert (Hnv : Forall (fun y => nonneg_valid (Prim2SF y)) (map Py.abs (x0 :: data))).
  { apply Forall_map. eapply Forall_impl; [|exact Hfin].
    intros x Hx. now apply abs_nonneg_valid. }
  cbn [map] in Hnv. inversion Hnv as [|? ? Hnv0 Hnv']; subst.
  destruct (max_from_bound (map Py.abs data) (Py.abs x0) Hnv0 Hnv') as [Hin Hall].
  set (peak := Py.max_from (Py.abs x0) (map Py.abs data)) in *.
  change (Py.abs x0 :: map Py.abs data) with (map Py.abs (x0 :: data))
    in Hin, Hall.
  split; [|split].
  - rewrite Forall_forall in Hnv. apply Hnv. exact Hin.
  - apply in_map_iff in Hin. destruct Hin as (x & Hx & Hin). now exists x.
  - rewrite Forall_map in Hall. rewrite Forall_forall in Hall, Hfin |- *.
    intros x Hx. specialize (Hall x Hx). specialize (Hfin x Hx).
    unfold float_value. now rewrite <- (proj2 (abs_nonneg_valid x Hfin)).
Qed.

Lemma ltb_zero_sign (x : float) (s : bool) (m : positive) (e : Z) :
  Prim2SF x = S754_finite s m e -> (x <? 0)%float = s.
Proof.
  intros E. rewrite ltb_spec, E. change (Prim2SF 0) with (S754_zero false).
  unfold SFltb. cbn [SFcompare]. now destruct s.
Qed.

(** One sample. *)
Lemma code_spec_holds (peak x : float) :
  finite_float x = true ->
  nonneg_valid (Prim2SF peak) ->
  (min_peak <=? peak)%float = true ->
  Rabs (float_value x) <= float_value peak ->
  exists c, code_spec peak x c.
Proof.
  intros Hx Hp Hmin Hle.
  destruct (code_accuracy x peak Hx Hp Hmin Hle) as (c & Hc & Hacc).
  exists c. unfold code_spec. split; [exact Hc|]. split; [exact Hacc|].
  destruct (min_peak_normal peak Hp Hmin) as (mp & ep & Ep & _ & _).
  unfold float_value in *.
  assert (HP : 0 < SF2R (Prim2SF peak)).
  { rewrite Ep, SF2R_finite. cbn [sign_R]. pose proof (pow2_pos ep).
    assert (0 < IZR (Z.pos mp)) by (apply IZR_lt; lia). nra. }
  set (X := SF2R (Prim2SF x)) in *. set (P := SF2R (Prim2SF peak)) in *.
  pose proof pow2_m43_small as H43.
  apply Rabs_bound in Hacc.
  split.
  - assert (Hr : Rabs (X * 511 / P) <= 511).
    { unfold Rdiv. rewrite !Rabs_mult, (Rabs_pos_eq 511) by lra.
      rewrite (Rabs_pos_eq (/ P)) by (apply Rlt_le, Rinv_0_lt_compat; exact HP).
      apply Rmult_le_reg_r with P; [exact HP|].
      replace (Rabs X * 511 * / P * P) with (Rabs X * 511) by (field; lra).
      pose proof (Rabs_pos X). nra. }
    apply Rabs_bound in Hr.
    split.
    + assert (H : IZR (-512) < IZR c) by (cbn; lra). apply lt_IZR in H. lia.
    + assert (H : IZR c < IZR 512) by (cbn; lra). apply lt_IZR in H. lia.
  - intros Habs.
    assert (Ex : SFabs (Prim2SF x) = S754_finite false mp ep).
    { rewrite <- abs_spec. unfold Py.abs in Habs. now rewrite Habs. }
    destruct (Prim2SF x) as [s|s| |s m e] eqn:E; try discriminate Ex.
    cbn [SFabs] in Ex. injection Ex as -> ->.
    rewrite (ltb_zero_sign x s mp ep E).
    assert (HX : X = sign_R s * P).
    { subst X P. rewrite Ep, !SF2R_finite. cbn [sign_R]. ring. }
    apply IZR_within_one. apply Rabs_def1.
    + destruct s; cbn [sign_R] in HX.
      * replace (X * 511 / P) with (-511) in Hacc by (rewrite HX; field; lra).
        lra.
      * replace (X * 511 / P) with 511 in Hacc by (rewrite HX; field; lra). lra.
    + destruct s; cbn [sign_R] in HX.
      * replace (X * 511 / P) with (-511) in Hacc by (rewrite HX; field; lra).
        lra.
      * replace (X * 511 / P) with 511 in Hacc by (rewrite HX; field; lra). lra.
Qed.

Local Open Scope Z_scope.

Lemma bind_lift_returned {A B} (a : A) (k : A -> io B) (l : log) :
  bind (lift (Returned a)) k l = k a l.
Proof. reflexivity. Qed.

Lemma peak_not_zero (peak : float) :
  nonneg_valid (Prim2SF peak) ->
  (min_peak <=? peak)%float = true -> (peak =? 0)%float = false.
Proof.
  intros Hp Hmin. destruct (min_peak_normal peak Hp Hmin) as (mp & ep & Ep & _).
  rewrite eqb_spec, Ep. reflexivity.
Qed.

(** The encoding of finite samples whose peak is at least [min_peak]:
    the upload and the save are written, and every code meets
    [code_spec]. *)
Lemma set_arb_data_encodes (data : list float) (slot : Z) (l : log) (peak : float) :
  1 <= Z.of_nat (List.length data) <= 4096 ->
  10 <= slot <= 19 ->
  Forall (fun x => finite_float x = true) data ->
  Py.max (map Py.abs data) = Returned peak ->
  (min_peak <=? peak)%float = true ->
  exists codes : list Z,
    set_arb_data data slot l
    = (Returned RNone,
       (l ++ [upload_command codes; ("*SAV " ++ str_int slot)%string])%list)
    /\ Forall2 (code_spec peak) data codes.
Proof.
  intros Hlen Hslot Hfin Hmax Hmin.
  destruct (peak_facts data peak Hfin Hmax) as (Hp & _ & Hle).
  assert (Hall : Forall (fun x => exists c, Py.round (x * (511 / peak))%float = Returned c
                                  /\ code_spec peak x c) data).
  { rewrite Forall_forall in Hfin, Hle |- *. intros x Hx.
    destruct (code_spec_holds peak x (Hfin x Hx) Hp Hmin (Hle x Hx)) as (c & Hc).
    exists c. split; [exact (proj1 Hc)|exact Hc]. }
  destruct (comprehension_Forall2 _ _ _ Hall) as (codes & Hcodes & HF).
  exists codes. split; [|exact HF].
  unfold set_arb_data.
  replace ((1 <=? Z.of_nat (List.length data))
           && (Z.of_nat (List.length data) <=? 4096)) with true
    by (symmetry; apply andb_true_iff; lia).
  rewrite bind_assert_true.
  replace (Py.contains slot (Py.range 10 20)) with true
    by (rewrite contains_range_10_20; symmetry; apply andb_true_iff; lia).
  rewrite bind_assert_true, Hmax, bind_lift_returned.
  rewrite (peak_not_zero peak Hp Hmin).
  unfold dac_codes. rewrite Hcodes, bind_lift_returned.
  cbv zeta. rewrite bind_write. unfold save. rewrite bind_write.
  unfold ret, upload_command. now rewrite <- app_assoc.
Qed.

(** The greatest magnitude among the codes is 511. *)
Lemma peak_code_attained (data : list float) (peak : float) (codes : list Z) :
  Forall (fun x => finite_float x = true) data ->
  Py.max (map Py.abs data) = Returned peak ->
  Forall2 (code_spec peak) data codes ->
  Forall (fun c => Z.abs c <= 511) codes
  /\ exists c, In c codes /\ Z.abs c = 511.
Proof.
  intros Hfin Hmax HF. split.
  - clear Hfin Hmax.
    induction HF as [|x c data codes Hc _ IH]; constructor; [|exact IH].
    destruct Hc as (_ & _ & Hb & _). lia.
  - destruct (peak_facts data peak Hfin Hmax) as (_ & (x & Hx & Habs) & _).
    destruct (Forall2_In_l _ _ _ x HF Hx) as (c & Hc & Hspec).
    exists c. split; [exact Hc|].
    destruct Hspec as (_ & _ & _ & Hpk). rewrite (Hpk Habs).
    now destruct (x <? 0)%float.
Qed.

Local Open Scope R_scope.

Lemma Forall2_In_r {A B} (R : A -> B -> Prop) (l : list A) (l' : list B) (b : B) :
  Forall2 R l l' -> In b l' -> exists a, In a l /\ R a b.
Proof.
  induction 1 as [|x y l l' Hxy _ IH]; intros Hin; [contradiction|].
  destruct Hin as [<-|Hin].
  - exists x. split; [now left|assumption].
  - destruct (IH Hin) as (a & Ha & HR). exists a. split; [now right|assumption].
Qed.

Lemma abs_value (x : float) :
  finite_float x = true -> float_value (Py.abs x) = Rabs (float_value x).
Proof. intros H. exact (proj2 (abs_nonneg_valid x H)). Qed.

(** Multiplying every sample by [k > 0] multiplies the peak by [k]. *)
Lemma rescaled_peak (k : R) (data data' : list float) (peak peak' : float) :
  0 < k ->
  Forall (fun x => finite_float x = true) data ->
  Forall (fun x => finite_float x = true) data' ->
  Forall2 (fun x x' => float_value x' = k * float_value x) data data' ->
  Py.max (map Py.abs data) = Returned peak ->
  Py.max (map Py.abs data') = Returned peak' ->
  float_value peak' = k * float_value peak.
Proof.
  intros Hk Hfin Hfin' Hscaled Hmax Hmax'.
  destruct (peak_facts data peak Hfin Hmax) as (_ & (x & Hx & Habs) & Hle).
  destruct (peak_facts data' peak' Hfin' Hmax') as (_ & (y' & Hy' & Habs') & Hle').
  rewrite Forall_forall in Hfin, Hfin', Hle, Hle'.
  destruct (Forall2_In_l _ _ _ x Hscaled Hx) as (x' & Hx' & Ex).
  destruct (Forall2_In_r _ _ _ y' Hscaled Hy') as (y & Hy & Ey).
  pose proof (Hle' x' Hx') as H1.
    rewrite Ex, Rabs_mult, (Rabs_pos_eq k) in H1 by lra.
  rewrite <- (abs_value x (Hfin x Hx)), Habs in H1.
  pose proof (Hle y Hy) as H2.
  pose proof (abs_value y' (Hfin' y' Hy')) as H3.
  rewrite Habs', Ey, Rabs_mult, (Rabs_pos_eq k) in H3 by lra.
  nra.
Qed.

(** Codes of a sequence and of the same sequence multiplied by a
    positive constant differ by at most one unit. *)
Lemma rescaled_codes_within_one (k : R) (data data' : list float)
  (peak peak' : float) (codes codes' : list Z) :
  0 < k -> 0 < float_value peak ->
  float_value peak' = k * float_value peak ->
  Forall2 (fun x x' => float_value x' = k * float_value x) data data' ->
  Forall2 (code_spec peak) data codes ->
  Forall2 (code_spec peak') data' codes' ->
  Forall2 (fun c c' => (Z.abs (c - c') <= 1)%Z) codes codes'.
Proof.
  intros Hk HP HP' Hscaled. revert codes codes'.
  induction Hscaled as [|x x' data data' Ex _ IH]; intros codes codes' HF HF'.
  - inversion HF; inversion HF'; subst. constructor.
  - inversion HF as [|? c ? cs Hc HFt];
    inversion HF' as [|? c' ? cs' Hc' HFt']; subst.
    constructor; [|now apply IH].
    destruct Hc as (_ & Hacc & _). destruct Hc' as (_ & Hacc' & _).
    assert (Er : float_value x' * 511 / float_value peak'
                 = float_value x * 511 / float_value peak).
    { rewrite Ex, HP'. field. lra. }
    rewrite Er in Hacc'. apply Rabs_bound in Hacc, Hacc'.
    pose proof pow2_m43_small.
    assert (H1 : IZR (c - c') < IZR 2) by (rewrite minus_IZR; lra).
    assert (H2 : IZR (-2) < IZR (c - c')) by (rewrite minus_IZR; lra).
    apply lt_IZR in H1, H2. lia.
Qed.

Local Open Scope Z_scope.

(** ** Arbitrary waveforms: peak code and rescaling *)

(** C1 fails as stated, in three ways.  The code 511 is also reached at
    a sample that is not a peak: [[1024.0, 1023.5]] encodes to
    [[511, 511]].  Multiplying the samples by a positive constant can
    change a code: [[46.0, 23.0]] encodes to [[511, 255]] and three
    times it, [[138.0, 69.0]], to [[511, 256]].  And a nonzero peak
    does not suffice for an encoding: for the one sample [2^-1030] the
    scale overflows and [round] raises. *)
Lemma peak_and_rescaling_counterexamples :
  set_arb_data [1024; 1023.5]%float 10 []
  = (Returned RNone, ["DATA:DAC VOLATILE,0,511,511"; "*SAV 10"])
  /\ (Py.abs 1023.5 <? 1024)%float = true
  /\ set_arb_data [46; 23]%float 10 []
     = (Returned RNone, ["DATA:DAC VOLATILE,0,511,255"; "*SAV 10"])
  /\ map (fun x => 3 * x)%float [46; 23]%float = [138; 69]%float
  /\ set_arb_data [138; 69]%float 10 []
     = (Returned RNone, ["DATA:DAC VOLATILE,0,511,256"; "*SAV 10"])
  /\ set_arb_data [0x1p-1030]%float 10 [] = (Raised OverflowError, []).
Proof. vm_compute. repeat split; reflexivity. Qed.

(** C1, as the code has it.  For finite samples, of length in
    [[1, 4096]], whose peak is at least [2^-1015], [set_arb_data]
    uploads one code per sample and saves to the slot; the code of a
    sample [x] is [round(x * (511.0 / peak))] computed in binary64 and
    lies within [1/2 + 2^-43] of the exact [x * 511 / peak]; every
    code lies in [[-511, 511]] and every peak sample has code [511] or
    [-511], so the greatest magnitude of a code is 511; and for every
    sequence of finite samples that are [k] times the original ones,
    with [k > 0], whose peak is again at least [2^-1015], the codes
    are uploaded as well and differ from the original ones by at most
    one unit each.  The bound on the rescaled peak is needed: below
    it the scale can overflow and the rescaled call raise. *)
Theorem set_arb_data_peak_scaling
  (data : list float) (slot : Z) (l : log) (peak : float) :
  1 <= Z.of_nat (List.length data) <= 4096 ->
  10 <= slot <= 19 ->
  Forall (fun x => finite_float x = true) data ->
  Py.max (map Py.abs data) = Returned peak ->
  (min_peak <=? peak)%float = true ->
  exists codes : list Z,
    set_arb_data data slot l
    = (Returned RNone,
       (l ++ [upload_command codes; ("*SAV " ++ str_int slot)%string])%list)
    /\ Forall2 (code_spec peak) data codes
    /\ Forall (fun c => Z.abs c <= 511) codes
    /\ (exists c, In c codes /\ Z.abs c = 511)
    /\ forall (k : R) (data' : list float) (peak' : float) (l' : log),
         (0 < k)%R ->
         scaled_by k data data' ->
         Forall (fun x => finite_float x = true) data' ->
         Py.max (map Py.abs data') = Returned peak' ->
         (min_peak <=? peak')%float = true ->
         exists codes' : list Z,
           set_arb_data data' slot l'
           = (Returned RNone,
              (l' ++ [upload_command codes';
                      ("*SAV " ++ str_int slot)%string])%list)
           /\ Forall2 (fun c c' => Z.abs (c - c') <= 1) codes codes'.
Proof.
  intros Hlen Hslot Hfin Hmax Hmin.
  destruct (set_arb_data_encodes data slot l peak Hlen Hslot Hfin Hmax Hmin)
    as (codes & Hrun & HF).
  destruct (peak_code_attained data peak codes Hfin Hmax HF) as [Hbound Hpeak].
  exists codes. repeat (split; [assumption|]).
  intros k data' peak' l' Hk Hscaled Hfin' Hmax' Hmin'.
  assert (Hlen' : 1 <= Z.of_nat (List.length data') <= 4096).
  { rewrite <- (Forall2_length Hscaled). exact Hlen. }
  destruct (set_arb_data_encodes data' slot l' peak' Hlen' Hslot Hfin' Hmax' Hmin')
    as (codes' & Hrun' & HF').
  exists codes'. split; [exact Hrun'|].
  destruct (peak_facts data peak Hfin Hmax) as (Hp & _ & _).
  destruct (min_peak_normal peak Hp Hmin) as (mp & ep & Ep & _ & _).
  assert (HP : (0 < float_value peak)%R).
  { unfold float_value. rewrite Ep, SF2R_finite. cbn [sign_R].
    pose proof (pow2_pos ep).
      assert (0 < IZR (Z.pos mp))%R by (apply IZR_lt; lia).
    nra. }
  apply (rescaled_codes_within_one k data data' peak peak'); try assumption.
  now apply (rescaled_peak k data data').
Qed.

Lemma float_value_dyadic (x : float) (m k : positive) :
  Prim2SF x = S754_finite false m (Z.neg k) ->
  float_value x = (IZR (Z.pos m) / IZR (2 ^ Z.pos k))%R.
Proof.
  intros E. unfold float_value. rewrite E, SF2R_finite. cbn [sign_R].
  rewrite Rmult_1_l. unfold Rdiv. f_equal.
  rewrite <- pow2_IZR by lia. exact (pow2_opp (Z.pos k)).
Qed.

(** [[138.0, 69.0]] is [[46.0, 23.0]] multiplied by 3. *)
Lemma scaled_by_3_example : scaled_by 3 [46; 23]%float [138; 69]%float.
Proof.
  unfold scaled_by. repeat constructor.
  - rewrite (float_value_dyadic 138 4855443348258816 45 eq_refl).
    rewrite (float_value_dyadic 46 6473924464345088 47 eq_refl).
    change (2 ^ 45) with 35184372088832.
    change (2 ^ 47) with 140737488355328. lra.
  - rewrite (float_value_dyadic 69 4855443348258816 46 eq_refl).
    rewrite (float_value_dyadic 23 6473924464345088 48 eq_refl).
    change (2 ^ 46) with 70368744177664.
    change (2 ^ 48) with 281474976710656. lra.
Qed.

Lemma set_arb_data_peak_scaling_witness :
  exists codes codes' : list Z,
    set_arb_data [46; 23]%float 10 []
    = (Returned RNone, [upload_command codes; "*SAV 10"])
    /\ Forall2 (code_spec 46) [46; 23]%float codes
    /\ Forall (fun c => Z.abs c <= 511) codes
    /\ (exists c, In c codes /\ Z.abs c = 511)
    /\ set_arb_data [138; 69]%float 10 []
       = (Returned RNone, [upload_command codes'; "*SAV 10"])
    /\ Forall2 (fun c c' => Z.abs (c - c') <= 1) codes codes'.
Proof.
  destruct (set_arb_data_peak_scaling [46; 23]%float 10 [] 46%float)
    as (codes & Hrun & Hspec & Hbound & Hpeak & Hscale).
  - cbn. lia.
  - lia.
  - repeat constructor.
  - reflexivity.
  - reflexivity.
  - destruct (Hscale 3%R [138;
    69]%float 138%float []) as (codes' & Hrun' & Hnear).
    + lra.
    + exact scaled_by_3_example.
    + repeat constructor.
    + reflexivity.
    + reflexivity.
    + exists codes, codes'. repeat (split; [assumption|]). exact Hnear.
Defined.


(** * Further properties *)

(** ** The outcomes of [set_arb_data] *)

Lemma bind_lift_raised {A B} (e : exn) (k : A -> io B) (l : log) :
  bind (lift (Raised e)) k l = (Raised e, l).
Proof. reflexivity. Qed.

(** The four ways a call can go. *)
Lemma set_arb_data_cases (data : list float) (slot : Z) (l : log) :
  let valid :=
    (1 <=? Z.of_nat (List.length data))
    && (Z.of_nat (List.length data) <=? 4096)
    && ((10 <=? slot) && (slot <=? 19)) in
  (valid = false /\ set_arb_data data slot l = (Raised AssertionError, l))
  \/ (valid = true /\ exists peak,
        Py.max (map Py.abs data) = Returned peak
        /\ ((peak =? 0)%float = true
            /\ set_arb_data data slot l
               = (Returned (RList (repeat 0%float (List.length data))), l)
            \/ (peak =? 0)%float = false
               /\ ((exists e, dac_codes peak data = Raised e
                              /\ e <> AssertionError
                              /\ set_arb_data data slot l = (Raised e, l))
                   \/ exists codes, dac_codes peak data = Returned codes
                        /\ set_arb_data data slot l
                           = (Returned RNone,
                              (l ++ [upload_command codes;
                                     ("*SAV " ++ str_int slot)%string])%list)))).
Proof.
  intros valid. subst valid. unfold set_arb_data.
  destruct ((1 <=? Z.of_nat (List.length data))
            && (Z.of_nat (List.length data) <=? 4096)) eqn:Hlen;
    [|left; split; reflexivity].
  rewrite bind_assert_true, contains_range_10_20.
  destruct ((10 <=? slot) && (slot <=? 19)) eqn:Hslot;
    [|left; split; reflexivity].
  right. split; [reflexivity|].
  rewrite bind_assert_true.
  destruct data as [|x data]; [discriminate Hlen|].
  exists (Py.max_from (Py.abs x) (map Py.abs data)).
  split; [reflexivity|].
  cbn [map Py.max]. rewrite bind_lift_returned.
  destruct (Py.max_from (Py.abs x) (map Py.abs data) =? 0)%float eqn:Hz.
  - left. split; reflexivity.
  - right. split; [reflexivity|].
    destruct (dac_codes (Py.max_from (Py.abs x) (map Py.abs data)) (x :: data))
      as [codes|e] eqn:Hc.
    + right. exists codes. split; [reflexivity|].
      rewrite bind_lift_returned. cbv zeta.
      rewrite bind_write. unfold save. rewrite bind_write.
      unfold ret, upload_command. now rewrite <- app_assoc.
    + left. exists e. split; [reflexivity|]. split; [|reflexivity].
      clear - Hc. unfold dac_codes in Hc.
      revert Hc. generalize (x :: data). intros items.
      induction items as [|y items IH]; cbn [Py.comprehension]; [discriminate|].
      destruct (Py.round _) as [c|e'] eqn:Hr.
      * destruct (Py.comprehension _ items) as [cs|e'']; [discriminate|].
        intros [= <-]. now apply IH.
      * intros [= <-]. unfold Py.round in Hr.
        destruct (Prim2SF _); try discriminate Hr; injection Hr as <-; discriminate.
Qed.

Lemma comprehension_returned {A B} (f : A -> outcome B) (l : list A)
  (bs : list B) :
  Py.comprehension f l = Returned bs ->
  Forall2 (fun a b => f a = Returned b) l bs.
Proof.
  revert bs. induction l as [|a l IH]; cbn [Py.comprehension]; intros bs.
  - intros [= <-]. constructor.
  - destruct (f a) as [b|e] eqn:Hb; [|discriminate].
    destruct (Py.comprehension f l) as [bs'|e]; [|discriminate].
    intros [= <-]. constructor; [exact Hb|now apply IH].
Qed.

(** X1.  A call of [set_arb_data] writes all or nothing, and which of
    the two is decided as follows.  It raises [AssertionError], with
    nothing written, exactly when the length is outside [[1, 4096]] or
    the slot outside [[10, 19]].  With a legal length and slot the
    maximum [peak] of the magnitudes exists, and: when [peak == 0] the
    call returns [[0.0] * len(data)] and writes nothing; when some
    [round(x * scale)] raises, the call raises that [ValueError] or
    [OverflowError] and writes nothing; otherwise it returns [None]
    and has written exactly the upload, with one code per sample, and
    the save. *)
Theorem set_arb_data_all_or_nothing (data : list float) (slot : Z) (l : log) :
  (~ (1 <= Z.of_nat (List.length data) <= 4096 /\ 10 <= slot <= 19)
   <-> set_arb_data data slot l = (Raised AssertionError, l))
  /\ (1 <= Z.of_nat (List.length data) <= 4096 /\ 10 <= slot <= 19 ->
      exists peak : float,
        Py.max (map Py.abs data) = Returned peak
        /\ if (peak =? 0)%float
           then set_arb_data data slot l
                = (Returned (RList (repeat 0%float (List.length data))), l)
           else match dac_codes peak data with
                | Returned codes =>
                    List.length codes = List.length data
                    /\ set_arb_data data slot l
                       = (Returned RNone,
                          (l ++ [upload_command codes;
                                 ("*SAV " ++ str_int slot)%string])%list)
                | Raised e =>
                    (e = ValueError \/ e = OverflowError)
                    /\ set_arb_data data slot l = (Raised e, l)
                end).
Proof.
  pose proof (set_arb_data_cases data slot l) as Hcases. cbv zeta in Hcases.
  assert (Hvalid :
            (1 <=? Z.of_nat (List.length data))
            && (Z.of_nat (List.length data) <=? 4096)
            && ((10 <=? slot) && (slot <=? 19)) = true
            <-> 1 <= Z.of_nat (List.length data) <= 4096 /\ 10 <= slot <= 19).
  { rewrite !andb_true_iff, !Z.leb_le. tauto. }
  destruct Hcases
    as [[Hv H]|[Hv (peak & Hmax & [[Hz H]|[Hz [(e & Hc & He & H)|(codes & Hc & H)]]])]].
  - split.
    + split; [intros _; exact H|]. intros _ Hok.
      apply Hvalid in Hok. congruence.
    + intros Hok. apply Hvalid in Hok. congruence.
  - apply Hvalid in Hv. split.
    + split; [tauto|]. rewrite H. discriminate.
    + intros _. exists peak. split; [exact Hmax|]. rewrite Hz. exact H.
  - apply Hvalid in Hv. split.
    + split; [tauto|]. rewrite H. intros [= ->]. exfalso. now apply He.
    + intros _. exists peak. split; [exact Hmax|]. rewrite Hz, Hc.
      split; [|exact H]. destruct e; [contradiction|now left|now right].
  - apply Hvalid in Hv. split.
    + split; [tauto|]. rewrite H. discriminate.
    + intros _. exists peak. split; [exact Hmax|]. rewrite Hz, Hc.
      split; [|exact H].
      unfold dac_codes in Hc. apply comprehension_returned in Hc.
      symmetry. exact (Forall2_length Hc).
Qed.

Lemma set_arb_data_all_or_nothing_witness :
  set_arb_data [1.0]%float 9 ["*RST"] = (Raised AssertionError, ["*RST"])
  /\ exists peak : float,
       Py.max (map Py.abs [1.0; -0.5]%float) = Returned peak
       /\ if (peak =? 0)%float
          then set_arb_data [1.0; -0.5]%float 10 ["*RST"]
               = (Returned (RList (repeat 0%float 2)), ["*RST"])
          else match dac_codes peak [1.0; -0.5]%float with
               | Returned codes =>
                   List.length codes = 2%nat
                   /\ set_arb_data [1.0; -0.5]%float 10 ["*RST"]
                      = (Returned RNone,
                         ["*RST"; upload_command codes; "*SAV 10"])
               | Raised e =>
                   (e = ValueError \/ e = OverflowError)
                   /\ set_arb_data [1.0; -0.5]%float 10 ["*RST"]
                      = (Raised e, ["*RST"])
               end.
Proof.
  split.
  - apply (proj1 (proj1 (set_arb_data_all_or_nothing [1.0]%float 9 ["*RST"]))).
    cbn. lia.
  - apply (proj2 (set_arb_data_all_or_nothing [1.0; -0.5]%float 10 ["*RST"])).
    cbn. lia.
Defined.

(** ** The scale for an arbitrary peak *)

Lemma SFdiv_core_511_any (mp : positive) (ep : Z) :
  Zdigits2 (Z.pos mp) <= 53 -> ep <= 971 ->
  let d := Zdigits2 (Z.pos mp) in
  let N := Z.pos m511 * 2 ^ d in
  SFdiv_core_binary prec emax (Z.pos m511) (-44) (Z.pos mp) ep
  = (N / Z.pos mp, -44 - ep - d, floc N (Z.pos mp)).
Proof.
  intros Hd53 Hep d N. unfold SFdiv_core_binary. fold d.
  change (Zdigits2 (Z.pos m511)) with 53.
  assert (Hd : 1 <= d) by (subst d; cbn [Zdigits2]; lia).
  fold d in Hd53. rewrite fexp_eq.
  replace (Z.min (Z.max (53 + -44 - (d + ep) - 53) (-1074)) (-44 - ep))
    with (-44 - ep - d) by lia.
  replace (-44 - ep - (-44 - ep - d)) with d by lia.
  destruct d as [|pd|pd] eqn:Ed; try lia.
  rewrite Z.shiftl_mul_pow2 by lia. fold N.
  rewrite div_eucl_div_mod, new_location_floc by lia. reflexivity.
Qed.

Local Open Scope R_scope.

(** The quotient [511.0 / p] for any valid positive [p]: an infinity,
    or a finite float within relative error [2^-53] of the exact
    quotient. *)
Lemma SFdiv_511_any (mp : positive) (ep : Z) :
  valid_binary (S754_finite false mp ep) = true ->
  let P := IZR (Z.pos mp) * pow2 ep in
  let scale :=
    SFdiv prec emax (S754_finite false m511 (-44)) (S754_finite false mp ep) in
  scale = S754_infinity false
  \/ exists (ms : positive) (es : Z),
       scale = S754_finite false ms es
       /\ Rabs (IZR (Z.pos ms) * pow2 es - 511 / P) <= 511 / P * pow2 (-53).
Proof.
  intros Hvalid P scale. subst scale. cbn [SFdiv xorb].
  destruct (valid_binary_bounds _ _ _ Hvalid) as (Hep & Hm53 & _).
  assert (Hd53 : (Zdigits2 (Z.pos mp) <= 53)%Z) by (apply Zdigits2_le_53; lia).
  rewrite (SFdiv_core_511_any mp ep Hd53 ltac:(lia)).
  set (D := Z.pos mp) in *. set (d := Zdigits2 D) in *.
  set (N := (Z.pos m511 * 2 ^ d)%Z). set (e := (-44 - ep - d)%Z).
  assert (HD : (0 < D)%Z) by (subst D; lia).
  assert (Hd1 : (1 <= d)%Z) by (subst d D; cbn [Zdigits2]; lia).
  destruct (Zdigits2_bounds D HD) as [HDlo HDhi]. fold d in HDlo, HDhi.
  assert (Hpd : (2 ^ d = 2 * 2 ^ (d - 1))%Z).
  { rewrite <- Z.pow_succ_r by lia. f_equal. lia. }
  assert (Hpd0 : (0 < 2 ^ (d - 1))%Z) by (apply Z.pow_pos_nonneg; lia).
  assert (Hm1 : Z.pos m511 = 8989607068696576%Z) by reflexivity.
  assert (HN : (0 < N)%Z) by (subst N; nia).
  set (q := (N / D)%Z).
  change (2 ^ 53)%Z with 9007199254740992%Z in Hm53.
  assert (Hq : (4503599627370496 <= q < 18014398509481984)%Z).
  { subst q. split.
    - apply Z.div_le_lower_bound; [lia|]. subst N. nia.
    - apply Z.div_lt_upper_bound; [lia|]. subst N. nia. }
  assert (Hqpos : (0 < q)%Z) by lia.
  destruct (Zdigits2_bounds q Hqpos) as [Hdq1 Hdq2].
  assert (Hdq : (53 <= Zdigits2 q <= 54)%Z).
  { split.
    - destruct (Z.le_gt_cases 53 (Zdigits2 q)); [assumption|].
      assert (2 ^ Zdigits2 q <= 2 ^ 52)%Z by (apply Z.pow_le_mono_r; lia).
      change (2 ^ 52)%Z with 4503599627370496%Z in *. lia.
    - destruct (Z.le_gt_cases (Zdigits2 q) 54); [assumption|].
      assert (2 ^ 54 <= 2 ^ (Zdigits2 q - 1))%Z by (apply Z.pow_le_mono_r; lia).
      change (2 ^ 54)%Z with 18014398509481984%Z in *. lia. }
  destruct (binary_round_aux_value false N D e ltac:(lia) HD)
    as (m'' & e'' & Heq & Hm & He'' & Hnormal & _ & Herr).
  fold q in Heq, Hnormal, Herr, He''.
  set (n := Z.max 0 (fexp (Zdigits2 q + e) - e)) in *.
  assert (Hn : (n = Zdigits2 q - 53)%Z) by (subst n e; rewrite fexp_eq; lia).
  assert (Hpn : (0 < 2 ^ n)%Z) by (apply Z.pow_pos_nonneg; lia).
  assert (Hm52 : (2 ^ 52 <= m'')%Z).
  { apply Hnormal. apply Z.div_le_lower_bound; [nia|].
    assert (D * q <= N)%Z by (subst q; apply Z.mul_div_le; lia).
    replace (D * 2 ^ n * 2 ^ 52)%Z with (D * 2 ^ (Zdigits2 q - 1))%Z.
    - nia.
    - rewrite <- Z.mul_assoc, <- Z.pow_add_r by lia. do 2 f_equal. lia. }
  pose proof (pow2_pos ep) as Hpep. pose proof (pow2_pos e) as Hpe.
  assert (HDR : 0 < IZR D) by now apply IZR_lt.
  assert (HP : 0 < P) by (subst P; nra).
  assert (Hv : IZR N / IZR D * pow2 e = 511 / P).
  { subst P. unfold e, N.
    replace (-44 - ep - d)%Z with (-44 + (- ep + - d))%Z by lia.
    rewrite !pow2_add, !pow2_opp, mult_IZR, <- pow2_IZR by lia.
    assert (E : IZR (Z.pos m511) * pow2 (-44) = 511).
    { replace (pow2 (-44)) with (/ pow2 44) by (symmetry; exact (pow2_opp 44)).
      rewrite pow2_IZR by lia. rewrite Hm1.
      change (2 ^ 44)%Z with 17592186044416%Z. lra. }
    pose proof (pow2_pos d).
    replace (IZR (Z.pos m511) * pow2 d / IZR D * (pow2 (-44) * (/ pow2 ep * / pow2 d)))
      with (IZR (Z.pos m511) * pow2 (-44) / (IZR D * pow2 ep)) by (field; lra).
    now rewrite E. }
  rewrite Hv in Herr.
  assert (Hulp : pow2 (e + n) / 2 <= 511 / P * pow2 (-53)).
  { rewrite <- Hv.
    assert (IZR q <= IZR N / IZR D).
    { apply Rmult_le_reg_r with (IZR D); [assumption|].
      replace (IZR N / IZR D * IZR D) with (IZR N) by (field; lra).
      rewrite <- mult_IZR. apply IZR_le. subst q. rewrite Z.mul_comm.
      apply Z.mul_div_le. lia. }
    apply IZR_le in Hdq1. rewrite <- pow2_IZR in Hdq1 by lia.
    rewrite <- pow2_pred.
    replace (e + n - 1)%Z with ((Zdigits2 q - 1) + e + (-53))%Z by lia.
    rewrite !pow2_add. pose proof (pow2_pos (-53)).
    pose proof (pow2_pos (Zdigits2 q - 1)).
    apply Rmult_le_compat_r; [lra|]. nra. }
  assert (Hbound : Rabs (IZR m'' * pow2 e'' - 511 / P) <= 511 / P * pow2 (-53))
    by lra.
  rewrite Heq.
  destruct m'' as [|ms|ms];
    [change (2 ^ 52)%Z with 4503599627370496%Z in Hm52; lia| |lia].
  cbn [pack]. destruct (Z.leb_spec e'' 971).
  - right. exists ms, e''. split; [reflexivity|exact Hbound].
  - left. reflexivity.
Qed.

(** Accuracy of one code for any positive finite peak with a finite
    scale. *)
Lemma code_accuracy_any (x p : float) (mp ms : positive) (ep es : Z) :
  SF_finite (Prim2SF x) = true ->
  Prim2SF p = S754_finite false mp ep ->
  Prim2SF (511 / p)%float = S754_finite false ms es ->
  Rabs (SF2R (Prim2SF x)) <= SF2R (Prim2SF p) ->
  exists c : Z,
    Py.round (x * (511 / p))%float = Returned c
    /\ Rabs (IZR c - SF2R (Prim2SF x) * 511 / SF2R (Prim2SF p))
       <= / 2 + pow2 (-43).
Proof.
  intros Hx Ep Escale Hle.
  assert (Hvalid : valid_binary (S754_finite false mp ep) = true).
  { rewrite <- Ep. apply Prim2SF_valid. }
  assert (Hdiv : Rabs (IZR (Z.pos ms) * pow2 es - 511 / (IZR (Z.pos mp) * pow2 ep))
                 <= 511 / (IZR (Z.pos mp) * pow2 ep) * pow2 (-53)).
  { destruct (SFdiv_511_any mp ep Hvalid) as [Hinf|(ms' & es' & E & Hb)].
    - rewrite div_spec, Prim2SF_511, Ep in Escale.
      unfold SF64div in Escale. rewrite Hinf in Escale. discriminate Escale.
    - rewrite div_spec, Prim2SF_511, Ep in Escale.
      unfold SF64div in Escale. rewrite E in Escale.
      injection Escale as -> ->. exact Hb. }
  rewrite Ep in Hle |- *. rewrite SF2R_finite in Hle |- *.
  cbn [sign_R] in Hle |- *. rewrite Rmult_1_l in Hle |- *.
  set (P := IZR (Z.pos mp) * pow2 ep) in *.
  set (S := IZR (Z.pos ms) * pow2 es) in *.
  assert (HP : 0 < P).
  { subst P. pose proof (pow2_pos ep).
    assert (0 < IZR (Z.pos mp)) by (apply IZR_lt; lia). nra. }
  set (q := 511 / P) in *.
  assert (Hq : 0 < q) by (apply Rdiv_lt_0_compat; lra).
  assert (HPq : P * q = 511) by (subst q; field; lra).
  pose proof (pow2_pos (-53)) as Ht.
  assert (Ht' : 511 * pow2 (-53) <= pow2 (-44)).
  { replace (-44)%Z with (9 + -53)%Z by lia. rewrite pow2_add, pow2_9. lra. }
  assert (H43 : pow2 (-43) = 2 * pow2 (-44)).
  { replace (-43)%Z with (-44 + 1)%Z by lia. apply pow2_succ. }
  assert (H44 : pow2 (-44) <= 1)
    by (change 1 with (pow2 0); apply pow2_le; lia).
  apply Rabs_bound in Hdiv.
  set (X := SF2R (Prim2SF x)) in *.
  assert (HXq : Rabs X * q <= 511).
  { rewrite <- HPq. apply Rmult_le_compat_r; lra. }
  assert (HXS : Rabs (X * S - X * 511 / P) <= pow2 (-44)).
  { replace (X * S - X * 511 / P) with (X * (S - q)) by (subst q; field; lra).
    rewrite Rabs_mult.
    assert (Rabs (S - q) <= q * pow2 (-53)) by (apply Rabs_le; lra).
    pose proof (Rabs_pos X).
    apply Rle_trans with (Rabs X * (q * pow2 (-53))).
    - apply Rmult_le_compat_l; assumption.
    - nra. }
  assert (Hprod : Prim2SF (x * (511 / p))%float
                  = SFmul prec emax (Prim2SF x) (S754_finite false ms es)).
  { rewrite mul_spec, Escale. reflexivity. }
  assert (Hmul : SF_finite (Prim2SF (x * (511 / p))%float) = true
                 /\ Rabs (SF2R (Prim2SF (x * (511 / p))%float) - X * S)
                    <= pow2 (-44)).
  { rewrite Hprod. subst X.
    destruct (Prim2SF x) as [s|s| |sx mx ex]; try discriminate Hx.
    - cbn [SFmul SF_finite SF2R]. split; [reflexivity|].
      rewrite Rmult_0_l, Rminus_diag, Rabs_R0. lra.
    - assert (Hb : IZR (Z.pos mx) * IZR (Z.pos ms) * pow2 (ex + es) <= 512).
      { rewrite SF2R_finite, Rabs_sign_mul in HXq.
        pose proof (pow2_pos ex).
        assert (0 < IZR (Z.pos mx)) by (apply IZR_lt; lia).
        rewrite Rabs_pos_eq in HXq by nra.
        rewrite pow2_add.
        replace (IZR (Z.pos mx) * IZR (Z.pos ms) * (pow2 ex * pow2 es))
          with (IZR (Z.pos mx) * pow2 ex * S) by (subst S; ring).
        assert (0 < IZR (Z.pos mx) * pow2 ex) by nra.
        assert (S <= q + q * pow2 (-53)) by lra.
        apply Rle_trans with (IZR (Z.pos mx) * pow2 ex * (q + q * pow2 (-53))).
        - apply Rmult_le_compat_l; lra.
        - nra. }
      destruct (SFmul_value sx false mx ms ex es Hb) as [Hf Herr].
      split; [exact Hf|]. rewrite (SF2R_finite false ms es) in Herr.
      cbn [sign_R] in Herr. rewrite Rmult_1_l in Herr. exact Herr. }
  destruct Hmul as [Hfin Herr].
  destruct (round_finite _ Hfin) as (c & Hc & Hround).
  exists c. split; [exact Hc|].
  apply Rabs_bound in Hround, Herr, HXS. apply Rabs_le. lra.
Qed.

(** The guarantee of [code_spec] from the accuracy bound. *)
Lemma code_spec_of_accuracy (peak x : float) (c : Z) (mp : positive) (ep : Z) :
  Prim2SF peak = S754_finite false mp ep ->
  Rabs (float_value x) <= float_value peak ->
  Py.round (x * (511 / peak))%float = Returned c ->
  Rabs (IZR c - float_value x * 511 / float_value peak) <= / 2 + pow2 (-43) ->
  code_spec peak x c.
Proof.
  intros Ep Hle Hc Hacc.
  unfold code_spec. split; [exact Hc|]. split; [exact Hacc|].
  unfold float_value in *.
  assert (HP : 0 < SF2R (Prim2SF peak)).
  { rewrite Ep, SF2R_finite. cbn [sign_R]. pose proof (pow2_pos ep).
    assert (0 < IZR (Z.pos mp)) by (apply IZR_lt; lia). nra. }
  set (X := SF2R (Prim2SF x)) in *. set (P := SF2R (Prim2SF peak)) in *.
  pose proof pow2_m43_small as H43.
  apply Rabs_bound in Hacc.
  split.
  - assert (Hr : Rabs (X * 511 / P) <= 511).
    { unfold Rdiv. rewrite !Rabs_mult, (Rabs_pos_eq 511) by lra.
      rewrite (Rabs_pos_eq (/ P)) by (apply Rlt_le, Rinv_0_lt_compat; exact HP).
      apply Rmult_le_reg_r with P; [exact HP|].
      replace (Rabs X * 511 * / P * P) with (Rabs X * 511) by (field; lra).
      pose proof (Rabs_pos X). nra. }
    apply Rabs_bound in Hr.
    split.
    + assert (H : IZR (-512) < IZR c) by (cbn; lra). apply lt_IZR in H. lia.
    + assert (H : IZR c < IZR 512) by (cbn; lra). apply lt_IZR in H. lia.
  - intros Habs.
    assert (Ex : SFabs (Prim2SF x) = S754_finite false mp ep).
    { rewrite <- abs_spec. unfold Py.abs in Habs. now rewrite Habs. }
    destruct (Prim2SF x) as [s|s| |s m e] eqn:E; try discriminate Ex.
    cbn [SFabs] in Ex. injection Ex as -> ->.
    rewrite (ltb_zero_sign x s mp ep E).
    assert (HX : X = sign_R s * P).
    { subst X P. rewrite Ep, !SF2R_finite. cbn [sign_R]. ring. }
    apply IZR_within_one. apply Rabs_def1.
    + destruct s; cbn [sign_R] in HX.
      * replace (X * 511 / P) with (-511) in Hacc by (rewrite HX; field; lra).
        lra.
      * replace (X * 511 / P) with 511 in Hacc by (rewrite HX; field; lra).
        lra.
    + destruct s; cbn [sign_R] in HX.
      * replace (X * 511 / P) with (-511) in Hacc by (rewrite HX; field; lra).
        lra.
      * replace (X * 511 / P) with 511 in Hacc by (rewrite HX; field; lra).
        lra.
Qed.

Local Open Scope Z_scope.

(** ** What an upload guarantees *)

Lemma round_returned_finite (y : float) (c : Z) :
  Py.round y = Returned c -> SF_finite (Prim2SF y) = true.
Proof.
  unfold Py.round. now destruct (Prim2SF y).
Qed.

Lemma SFmul_finite_left (a b : spec_float) :
  SF_finite (SFmul prec emax a b) = true -> SF_finite a = true.
Proof. destruct a as [| | |]; destruct b as [| | |]; cbn; congruence. Qed.

Lemma SFmul_finite_right (s : bool) (m : positive) (e : Z) (b : spec_float) :
  SF_finite (SFmul prec emax (S754_finite s m e) b) = true ->
  SF_finite b = true.
Proof. destruct b as [| | |]; cbn [SFmul SF_finite]; congruence. Qed.

Lemma Forall2_impl_In {A B} (R R' : A -> B -> Prop) (l : list A) (l' : list B) :
  (forall a b, In a l -> R a b -> R' a b) ->
  Forall2 R l l' -> Forall2 R' l l'.
Proof.
  intros H HF. induction HF as [|a b l l' Hab _ IH]; constructor.
  - apply H; [now left|exact Hab].
  - apply IH. intros a' b' Hin. apply H. now right.
Qed.

Lemma Forall2_Forall_l {A B} (R : A -> B -> Prop) (P : A -> Prop)
  (l : list A) (l' : list B) :
  (forall a b, R a b -> P a) -> Forall2 R l l' -> Forall P l.
Proof.
  intros H HF. induction HF as [|a b l l' Hab _ IH]; constructor; eauto.
Qed.

(** An upload happens only with finite samples, and each uploaded code
    is related to its sample by [code_spec]. *)
Lemma uploaded_codes_spec (data : list float) (slot : Z) (l l' : log) :
  set_arb_data data slot l = (Returned RNone, l') ->
  exists (peak : float) (codes : list Z),
    Forall (fun x => finite_float x = true) data
    /\ Py.max (map Py.abs data) = Returned peak
    /\ l' = (l ++ [upload_command codes; ("*SAV " ++ str_int slot)%string])%list
    /\ Forall2 (code_spec peak) data codes.
Proof.
  intros Hrun.
  destruct (set_arb_data_cases data slot l)
    as [[_ H]|[_ (peak & Hmax & [[_ H]|[Hz [(e & _ & _ & H)|(codes & Hc & H)]]])]];
    rewrite H in Hrun; try discriminate Hrun.
  injection Hrun as <-. clear H.
  exists peak, codes.
  unfold dac_codes in Hc. apply comprehension_returned in Hc.
  assert (Hfin : Forall (fun x => finite_float x = true) data).
  { eapply Forall2_Forall_l; [|exact Hc]. intros x c H.
    apply round_returned_finite in H. rewrite mul_spec in H.
    now apply SFmul_finite_left in H. }
  destruct (peak_facts data peak Hfin Hmax) as (Hp & (x0 & Hx0 & Habs) & Hle).
  assert (Ep : exists mp ep, Prim2SF peak = S754_finite false mp ep).
  { rewrite eqb_spec in Hz. change (Prim2SF 0) with (S754_zero false) in Hz.
    destruct (Prim2SF peak) as [s|s| |[|] mp ep]; cbn [nonneg_valid] in Hp;
      try contradiction; [discriminate Hz|]. now exists mp, ep. }
  destruct Ep as (mp & ep & Ep).
  assert (Escale : exists ms es,
             Prim2SF (511 / peak)%float = S754_finite false ms es).
  { destruct (Forall2_In_l _ _ _ x0 Hc Hx0) as (c0 & _ & Hc0).
    apply round_returned_finite in Hc0. rewrite mul_spec in Hc0.
    assert (Ex0 : SFabs (Prim2SF x0) = S754_finite false mp ep).
    { rewrite <- abs_spec. unfold Py.abs in Habs. now rewrite Habs. }
    destruct (Prim2SF x0) as [s|s| |s m e]; try discriminate Ex0.
    apply SFmul_finite_right in Hc0.
    assert (Hvalid : valid_binary (S754_finite false mp ep) = true).
    { rewrite <- Ep. apply Prim2SF_valid. }
    rewrite div_spec, Prim2SF_511, Ep in Hc0 |- *.
    destruct (SFdiv_511_any mp ep Hvalid) as [Hinf|(ms & es & E & _)].
    - unfold SF64div in Hc0. rewrite Hinf in Hc0. discriminate Hc0.
    - exists ms, es. exact E. }
  destruct Escale as (ms & es & Escale).
  assert (HF : Forall2 (code_spec peak) data codes).
  { pose proof Hfin as Hfin'. pose proof Hle as Hle'.
    rewrite Forall_forall in Hfin', Hle'.
    eapply Forall2_impl_In; [|exact Hc]. intros x c Hin Hr. cbv beta in Hr.
    destruct (code_accuracy_any x peak mp ms ep es (Hfin' x Hin) Ep Escale
                (Hle' x Hin)) as (c' & Hc' & Hacc).
    rewrite Hr in Hc'. injection Hc' as <-.
    exact (code_spec_of_accuracy peak x c mp ep Ep (Hle' x Hin) Hr Hacc). }
  split; [exact Hfin|]. split; [exact Hmax|]. split; [reflexivity|].
  exact HF.
Qed.

(** X2.  Whenever [set_arb_data] uploads (returns [None]), every
    sample was finite, and the uploaded codes, one per sample, meet
    [code_spec] for the peak: each is [round(x * (511.0 / peak))],
    within [1/2 + 2^-43] of the exact quotient, in [[-511, 511]], and
    [511] or [-511] at a peak sample; the greatest magnitude is 511. *)
Theorem set_arb_data_upload_sound
  (data : list float) (slot : Z) (l l' : log) :
  set_arb_data data slot l = (Returned RNone, l') ->
  exists (peak : float) (codes : list Z),
    Forall (fun x => finite_float x = true) data
    /\ Py.max (map Py.abs data) = Returned peak
    /\ l' = (l ++ [upload_command codes; ("*SAV " ++ str_int slot)%string])%list
    /\ Forall2 (code_spec peak) data codes
    /\ Forall (fun c => Z.abs c <= 511) codes
    /\ exists c, In c codes /\ Z.abs c = 511.
Proof.
  intros Hrun.
  destruct (uploaded_codes_spec data slot l l' Hrun)
    as (peak & codes & Hfin & Hmax & Hl & HF).
  exists peak, codes. repeat (split; [assumption|]).
  exact (peak_code_attained data peak codes Hfin Hmax HF).
Qed.

Lemma set_arb_data_upload_sound_witness :
  exists (peak : float) (codes : list Z),
    Forall (fun x => finite_float x = true) [1.0; -0.5; 0.0; 0.5]%float
    /\ Py.max (map Py.abs [1.0; -0.5; 0.0; 0.5]%float) = Returned peak
    /\ ["DATA:DAC VOLATILE,0,511,-256,0,256"; "*SAV 10"]
       = [upload_command codes; "*SAV 10"]
    /\ Forall2 (code_spec peak) [1.0; -0.5; 0.0; 0.5]%float codes
    /\ Forall (fun c => Z.abs c <= 511) codes
    /\ exists c, In c codes /\ Z.abs c = 511.
Proof.
  apply (set_arb_data_upload_sound [1.0; -0.5; 0.0; 0.5]%float 10 []).
  vm_compute. reflexivity.
Defined.

(** ** NaN samples *)

Lemma not_self_equal_nan (x : float) :
  (x =? x)%float = false -> Prim2SF x = S754_nan.
Proof.
  rewrite eqb_spec. unfold SFeqb.
  destruct (Prim2SF x) as [s|s| |s m e]; cbn [SFcompare]; try reflexivity.
  - discriminate.
  - destruct s; discriminate.
  - rewrite Z.compare_refl.
    fold (Pos.compare m m). rewrite Pos.compare_refl. destruct s; discriminate.
Qed.

Lemma max_from_nan (maxval : float) (items : list float) :
  Prim2SF maxval = S754_nan -> Py.max_from maxval items = maxval.
Proof.
  intros Hnan. induction items as [|y items IH]; [reflexivity|].
  cbn [Py.max_from]. rewrite ltb_spec, Hnan. exact IH.
Qed.

(** X3.  When the first sample is a NaN ([x != x]), the maximum is
    that NaN whatever follows, and [set_arb_data] raises [ValueError]
    at the first [round], before anything is written. *)
Theorem set_arb_data_nan_first
  (x : float) (rest : list float) (slot : Z) (l : log) :
  Z.of_nat (List.length (x :: rest)) <= 4096 ->
  10 <= slot <= 19 ->
  (x =? x)%float = false ->
  set_arb_data (x :: rest) slot l = (Raised ValueError, l).
Proof.
  intros Hlen Hslot Hx. apply not_self_equal_nan in Hx.
  assert (Habs : Prim2SF (Py.abs x) = S754_nan).
  { unfold Py.abs. now rewrite abs_spec, Hx. }
  destruct (set_arb_data_cases (x :: rest) slot l)
    as [[Hv _]|[_ (peak & Hmax & Hcases)]].
  - exfalso.
    assert (1 <= Z.of_nat (List.length (x :: rest)))
      by (cbn [List.length]; rewrite Nat2Z.inj_succ; lia).
    apply andb_false_iff in Hv. rewrite !andb_false_iff in Hv.
    rewrite !Z.leb_gt in Hv. lia.
  - cbn [map Py.max] in Hmax. rewrite (max_from_nan _ _ Habs) in Hmax.
    injection Hmax as <-.
    assert (Hz : (Py.abs x =? 0)%float = false) by now rewrite eqb_spec, Habs.
    assert (Hc : dac_codes (Py.abs x) (x :: rest) = Raised ValueError).
    { unfold dac_codes. cbn [Py.comprehension]. unfold Py.round at 1.
      now rewrite mul_spec, Hx. }
    destruct Hcases as [[Hz' _]|[_ [(e & Hc' & _ & ->)|(codes & Hc' & _)]]].
    + congruence.
    + congruence.
    + congruence.
Qed.

Lemma set_arb_data_nan_first_witness :
  set_arb_data [nan; 1.0; 0.5]%float 10 [] = (Raised ValueError, []).
Proof.
  apply (set_arb_data_nan_first nan [1.0; 0.5]%float 10 []).
  - cbn. lia.
  - lia.
  - reflexivity.
Defined.

Lemma max_from_zero_or_nan (items : list float) :
  Forall (fun y => is_zero y = true \/ (y =? y)%float = false) items ->
  Py.max_from 0 (map Py.abs items) = 0%float.
Proof.
  induction 1 as [|y items Hy _ IH]; [reflexivity|].
  cbn [map Py.max_from].
  replace (0 <? Py.abs y)%float with false; [exact IH|].
  destruct Hy as [Hy|Hy].
  - now rewrite (abs_of_zero y Hy).
  - apply not_self_equal_nan in Hy. unfold Py.abs.
    now rewrite ltb_spec, abs_spec, Hy.
Qed.

(** X4.  A NaN that follows only zeros goes unnoticed: when the first
    sample is zero and every other sample is zero or a NaN, the
    maximum is zero and [set_arb_data] takes the all-zero path; it
    returns [[0.0] * len(data)] and writes nothing. *)
Theorem set_arb_data_zero_then_nan
  (x : float) (rest : list float) (slot : Z) (l : log) :
  Z.of_nat (List.length (x :: rest)) <= 4096 ->
  10 <= slot <= 19 ->
  is_zero x = true ->
  Forall (fun y => is_zero y = true \/ (y =? y)%float = false) rest ->
  set_arb_data (x :: rest) slot l
  = (Returned (RList (repeat 0%float (List.length (x :: rest)))), l).
Proof.
  intros Hlen Hslot Hx Hrest.
  destruct (set_arb_data_cases (x :: rest) slot l)
    as [[Hv _]|[_ (peak & Hmax & Hcases)]].
  - exfalso.
    assert (1 <= Z.of_nat (List.length (x :: rest)))
      by (cbn [List.length]; rewrite Nat2Z.inj_succ; lia).
    apply andb_false_iff in Hv. rewrite !andb_false_iff in Hv.
    rewrite !Z.leb_gt in Hv. lia.
  - cbn [map Py.max] in Hmax.
    rewrite (abs_of_zero x Hx), (max_from_zero_or_nan rest Hrest) in Hmax.
    injection Hmax as <-.
    destruct Hcases as [[_ H]|[Hz _]]; [exact H|discriminate Hz].
Qed.

Lemma set_arb_data_zero_then_nan_witness :
  set_arb_data [0; nan; 0]%float 10 [] = (Returned (RList [0; 0; 0]%float), []).
Proof.
  apply (set_arb_data_zero_then_nan 0 [nan; 0]%float 10 []).
  - cbn. lia.
  - lia.
  - reflexivity.
  - constructor; [right; reflexivity|].
    constructor; [left; reflexivity|constructor].
Defined.

(** ** Modulation and sweep *)

(** X6.  With any state other than the string "OFF" (so also "off" or
    a number), [set_amplitude_modulation] never raises and writes the
    state command, the source command, the two internal-source
    commands exactly when the source is the string "INT", and the
    depth command last: five commands for "INT", three otherwise. *)
Theorem set_amplitude_modulation_not_off
  (repr_float : float -> string)
  (state source function frequency depth : pyval) (l : log) :
  eq_str state "OFF" = false ->
  set_amplitude_modulation repr_float state source function frequency depth l
  = (Returned tt,
     (l ++ [("SOUR:AM:STAT " ++ format repr_float state)%string;
            ("SOUR:AM:SOUR " ++ format repr_float source)%string]
        ++ (if eq_str source "INT"
            then [("SOUR:AM:INT:FUNC " ++ format repr_float function)%string;
                  ("SOUR:AM:INT:FREQ " ++ format repr_float frequency)%string]
            else [])
        ++ [("SOUR:AM:DEPT " ++ format repr_float depth)%string])%list).
Proof.
  intros Hoff. unfold set_amplitude_modulation.
  rewrite bind_write, Hoff, bind_write.
  destruct (eq_str source "INT").
  - unfold bind at 1. rewrite bind_write, write_spec, write_spec.
    f_equal. now rewrite <- !app_assoc.
  - unfold bind at 1. unfold ret. rewrite write_spec.
    f_equal. now rewrite <- !app_assoc.
Qed.

Lemma set_amplitude_modulation_not_off_witness :
  set_amplitude_modulation ReprExact.repr (PyStr "off") (PyStr "INT")
    (PyStr "SQU") (PyInt 100) (PyFloat 50.0) []
  = (Returned tt,
     ["SOUR:AM:STAT off"; "SOUR:AM:SOUR INT"; "SOUR:AM:INT:FUNC SQU";
      "SOUR:AM:INT:FREQ 100"; "SOUR:AM:DEPT 50.0"]).
Proof.
  exact (set_amplitude_modulation_not_off ReprExact.repr (PyStr "off")
           (PyStr "INT") (PyStr "SQU") (PyInt 100) (PyFloat 50.0) [] eq_refl).
Defined.

(** X7.  [set_frequency_modulation] never raises; it writes the state
    command alone when the state is the string "OFF", and otherwise
    the state command, the source command, the two internal-source
    commands exactly when the source is the string "INT", and the
    deviation command last. *)
Theorem set_frequency_modulation_writes
  (repr_float : float -> string)
  (state source function frequency deviation : pyval) (l : log) :
  set_frequency_modulation repr_float
    state source function frequency deviation l
  = (Returned tt,
     (l ++ ("SOUR:FM:STAT " ++ format repr_float state)%string
        :: (if eq_str state "OFF" then []
            else ("SOUR:FM:SOUR " ++ format repr_float source)%string
                 :: (if eq_str source "INT"
                     then [("SOUR:FM:INT:FUNC "
                            ++ format repr_float function)%string;
                           ("SOUR:FM:INT:FREQ "
                            ++ format repr_float frequency)%string]
                     else [])
                 ++ [("SOUR:FM:DEV "
                      ++ format repr_float deviation)%string]))%list).
Proof.
  unfold set_frequency_modulation. rewrite bind_write.
  destruct (eq_str state "OFF"); [reflexivity|].
  rewrite bind_write.
  destruct (eq_str source "INT").
  - unfold bind at 1. rewrite bind_write, write_spec, write_spec.
    f_equal. rewrite <- !app_assoc. reflexivity.
  - unfold bind at 1. unfold ret. rewrite write_spec.
    f_equal. rewrite <- !app_assoc. reflexivity.
Qed.

(** X8.  [set_frequency_sweep] never raises; it writes the state
    command alone when the state is the string "OFF", and otherwise
    six commands in this order: state, start, stop, spacing, rate,
    trigger source. *)
Theorem set_frequency_sweep_writes
  (repr_float : float -> string)
  (state start stop spacing rate source : pyval) (l : log) :
  set_frequency_sweep repr_float state start stop spacing rate source l
  = (Returned tt,
     (l ++ ("SOUR:SWE:STAT " ++ format repr_float state)%string
        :: (if eq_str state "OFF" then []
            else [("SOUR:FREQ:STAR " ++ format repr_float start)%string;
                  ("SOUR:FREQ:STOP " ++ format repr_float stop)%string;
                  ("SOUR:SWE:SPAC " ++ format repr_float spacing)%string;
                  ("SOUR:SWE:RATE " ++ format repr_float rate)%string;
                  ("SOUR:SWE:SOUR " ++ format repr_float source)%string]))%list).
Proof.
  unfold set_frequency_sweep. rewrite bind_write.
  destruct (eq_str state "OFF"); [reflexivity|].
  rewrite !bind_write, write_spec. f_equal. rewrite <- !app_assoc. reflexivity.
Qed.

(** ** Replies *)

Lemma lstrip_decompose (s : string) :
  exists pre, s = pre ++ PyStr.lstrip s /\ PyStr.all_space pre = true.
Proof.
  induction s as [|c s (pre & Hs & Hpre)]; [now exists ""|].
  cbn [PyStr.lstrip]. destruct (PyStr.isspace c) eqn:Hc.
  - exists (String c pre). cbn [append PyStr.all_space].
    rewrite Hc, Hpre. split; [now f_equal|reflexivity].
  - now exists "".
Qed.

Lemma rstrip_decompose (s : string) :
  exists post, s = PyStr.rstrip s ++ post /\ PyStr.all_space post = true.
Proof.
  induction s as [|c s (post & Hs & Hpost)]; [now exists ""|].
  cbn [PyStr.rstrip]. destruct (PyStr.rstrip s) as [|c' t] eqn:Hr.
  - destruct (PyStr.isspace c) eqn:Hc.
    + exists (String c post). cbn [append PyStr.all_space] in *.
      rewrite Hc, Hpost. split; [now f_equal|reflexivity].
    + exists post. cbn [append] in *. split; [now f_equal|assumption].
  - exists post. cbn [append] in *. split; [now f_equal|assumption].
Qed.

Lemma lstrip_first (s : string) (c : ascii) :
  PyStr.first_char (PyStr.lstrip s) = Some c -> PyStr.isspace c = false.
Proof.
  induction s as [|a s IH]; cbn [PyStr.lstrip]; [discriminate|].
  destruct (PyStr.isspace a) eqn:Ha; [exact IH|].
  cbn. now intros [= <-].
Qed.

Lemma rstrip_last (s : string) (c : ascii) :
  PyStr.last_char (PyStr.rstrip s) = Some c -> PyStr.isspace c = false.
Proof.
  induction s as [|a s IH]; cbn [PyStr.rstrip]; [discriminate|].
  destruct (PyStr.rstrip s) as [|c' t] eqn:Hr.
  - destruct (PyStr.isspace a) eqn:Ha; [discriminate|].
    cbn. now intros [= <-].
  - change (PyStr.last_char (String a (String c' t)))
      with (PyStr.last_char (String c' t)). exact IH.
Qed.

Lemma rstrip_first (s : string) (c : ascii) :
  PyStr.first_char (PyStr.rstrip s) = Some c -> PyStr.first_char s = Some c.
Proof.
  destruct s as [|a s]; cbn [PyStr.rstrip]; [discriminate|].
  destruct (PyStr.rstrip s); [destruct (PyStr.isspace a)|]; cbn; congruence.
Qed.

Lemma lstrip_fixed (s : string) :
  (forall c, PyStr.first_char s = Some c -> PyStr.isspace c = false) ->
  PyStr.lstrip s = s.
Proof.
  destruct s as [|a s]; [reflexivity|]. intros H.
  cbn [PyStr.lstrip]. now rewrite (H a eq_refl).
Qed.

Lemma rstrip_fixed (s : string) :
  (forall c, PyStr.last_char s = Some c -> PyStr.isspace c = false) ->
  PyStr.rstrip s = s.
Proof.
  induction s as [|a s IH]; [reflexivity|]. intros H.
  cbn [PyStr.rstrip]. destruct s as [|b s].
  - cbn [PyStr.rstrip]. now rewrite (H a eq_refl).
  - rewrite IH by (intros c Hc; apply H; exact Hc). reflexivity.
Qed.

(** X9.  What [query] returns is the reply with the white space at
    both ends removed, and nothing else: the reply is the returned
    string between two runs of white space, the returned string
    neither starts nor ends with white space, and stripping it again
    changes nothing.  The command is written exactly once. *)
Theorem query_returns_stripped_reply
  (respond : log -> string -> string) (command : string) (l : log) :
  exists (r pre post : string),
    query respond command l = (Returned r, (l ++ [command])%list)
    /\ respond l command = pre ++ r ++ post
    /\ PyStr.all_space pre = true /\ PyStr.all_space post = true
    /\ (forall c, PyStr.first_char r = Some c -> PyStr.isspace c = false)
    /\ (forall c, PyStr.last_char r = Some c -> PyStr.isspace c = false)
    /\ PyStr.strip r = r.
Proof.
  destruct (lstrip_decompose (respond l command)) as (pre & Hpre & Hspre).
  destruct (rstrip_decompose (PyStr.lstrip (respond l command)))
    as (post & Hpost & Hspost).
  exists (PyStr.strip (respond l command)), pre, post.
  assert (Hfirst : forall c,
             PyStr.first_char (PyStr.strip (respond l command)) = Some c ->
             PyStr.isspace c = false).
  { intros c Hc. apply rstrip_first in Hc. now apply lstrip_first in Hc. }
  assert (Hlast : forall c,
             PyStr.last_char (PyStr.strip (respond l command)) = Some c ->
             PyStr.isspace c = false).
  { intros c Hc. now apply rstrip_last in Hc. }
  split; [reflexivity|]. split.
  { unfold PyStr.strip. rewrite <- Hpost. exact Hpre. }
  repeat (split; [assumption|]).
  unfold PyStr.strip at 1.
  rewrite (lstrip_fixed _ Hfirst). now apply rstrip_fixed.
Qed.

(** ** Settings and their queries *)

(** X10.  Each setting is written and read back under the same
    command path: the setter writes the path, a space and the value;
    the getter writes the path followed by a question mark, whether or
    not the reply can be converted.  Neither validates the value. *)
Theorem setters_and_getters_share_paths
  (repr_float : float -> string)
  (respond : log -> string -> string)
  (float_of_str : string -> outcome float) :
  let pair (path : string) (set : pyval -> io unit) (written : log -> log) :=
    (forall v l,
        set v l
        = (Returned tt,
           (l ++ [(path ++ " " ++ format repr_float v)%string])%list))
    /\ (forall l, written l = (l ++ [(path ++ "?")%string])%list) in
  pair "SOUR:FUNC" (set_function repr_float)
    (fun l => snd (get_function respond l))
  /\ pair "SOUR:FREQ" (set_frequency repr_float)
       (fun l => snd (get_frequency respond float_of_str l))
  /\ pair "SOUR:AMPL" (set_amplitude repr_float)
       (fun l => snd (get_amplitude respond float_of_str l))
  /\ pair "SOUR:DCO" (set_offset repr_float)
       (fun l => snd (get_offset respond float_of_str l))
  /\ pair "SOUR:SQU:DCYC" (set_duty_cycle repr_float)
       (fun l => snd (get_duty_cycle respond float_of_str l))
  /\ pair "SOUR:RAMP:SYMM" (set_ramp_symmetry repr_float)
       (fun l => snd (get_ramp_symmetry respond float_of_str l))
  /\ pair "OUTP" (set_output repr_float)
       (fun l => snd (get_output respond float_of_str l))
  /\ pair "OUTP:LOAD" (set_output_load repr_float)
       (fun l => snd (get_output_load respond l))
  /\ pair "SOUR:VOLT:UNIT" (set_voltage_unit repr_float)
       (fun l => snd (get_voltage_unit respond l)).
Proof.
  assert (Hget : forall command l,
             snd (bind (query respond command)
                    (fun r => lift (float_of_str r)) l)
             = (l ++ [command])%list).
  { intros command l. unfold bind, query, bind, resource_query, ret, lift.
    reflexivity. }
  intros pair. subst pair. cbv beta.
  repeat split; intros; try reflexivity; apply Hget.
Qed.

(** ** Reading an upload back *)

Lemma after_header_append (header body : string) :
  after_header header (header ++ body) = Some body.
Proof.
  induction header as [|a h IH]; [now destruct body|].
  cbn [append after_header]. now rewrite Ascii.eqb_refl.
Qed.

Lemma int_of_str_str_int (z : Z) : PyStr.int_of_str (str_int z) = Some z.
Proof.
  unfold PyStr.int_of_str, str_int.
  rewrite NilZero.isi.
  - cbn [option_map]. now rewrite DecimalZ.of_to.
  - destruct z; cbn [Z.to_int]; try discriminate.
    intros [= H]. now apply DecimalPos.Unsigned.to_uint_nonnil in H.
  - destruct z; cbn [Z.to_int]; try discriminate.
    intros [= H]. now apply DecimalPos.Unsigned.to_uint_nonnil in H.
Qed.

Lemma decode_upload_command (codes : list Z) :
  codes <> [] ->
  decode_upload (upload_command codes) = Some (map Some codes).
Proof.
  intros Hne. unfold decode_upload, upload_command.
  rewrite after_header_append. cbn [option_map]. f_equal.
  rewrite split_on_join.
  - rewrite map_map. apply map_ext. exact int_of_str_str_int.
  - destruct codes; [contradiction|discriminate].
  - apply Forall_map, Forall_forall. intros z _. apply no_comma_str_int.
Qed.

(** X11.  An upload can be read back: whenever [set_arb_data] uploads,
    the command written first, cut at the commas after its header and
    read as decimal integers, gives exactly the codes
    [[round(x * scale) for x in data]], one per sample. *)
Theorem uploaded_codes_read_back (data : list float) (slot : Z) (l l' : log) :
  set_arb_data data slot l = (Returned RNone, l') ->
  exists (peak : float) (codes : list Z) (command : string),
    Py.max (map Py.abs data) = Returned peak
    /\ dac_codes peak data = Returned codes
    /\ List.length codes = List.length data
    /\ nth_error l' (List.length l) = Some command
    /\ decode_upload command = Some (map Some codes).
Proof.
  intros Hrun.
  destruct (set_arb_data_cases data slot l)
    as [[_ H]|[Hv (peak & Hmax & [[_ H]|[Hz [(e & _ & _ & H)|(codes & Hc & H)]]])]];
    rewrite H in Hrun; try discriminate Hrun.
  injection Hrun as <-. clear H.
  assert (Hlen : List.length codes = List.length data).
  { unfold dac_codes in Hc. apply comprehension_returned in Hc.
    symmetry. exact (Forall2_length Hc). }
  exists peak, codes, (upload_command codes).
  repeat (split; [assumption|]). split.
  - rewrite nth_error_app2 by lia. now rewrite Nat.sub_diag.
  - apply decode_upload_command. intros ->.
    apply andb_true_iff in Hv. rewrite !andb_true_iff in Hv.
    cbn [List.length] in Hlen. rewrite <- Hlen in Hv. cbn in Hv. lia.
Qed.

Lemma uploaded_codes_read_back_witness :
  exists (peak : float) (codes : list Z) (command : string),
    Py.max (map Py.abs [1.0; -0.5; 0.0; 0.5]%float) = Returned peak
    /\ dac_codes peak [1.0; -0.5; 0.0; 0.5]%float = Returned codes
    /\ List.length codes = 4%nat
    /\ nth_error ["*RST"; "DATA:DAC VOLATILE,0,511,-256,0,256"; "*SAV 10"] 1
       = Some command
    /\ decode_upload command = Some (map Some codes).
Proof.
  apply (uploaded_codes_read_back [1.0; -0.5; 0.0; 0.5]%float 10 ["*RST"]).
  vm_compute. reflexivity.
Defined.

(** ** The example script *)

Lemma apply_user_command (repr_float : float -> string) :
  apply_command repr_float
    (PyStr "USER") (PyInt 1000) (PyFloat 1.0) (PyFloat 0.0)
  = "SOUR:APPL:USER 1000," ++ repr_float 1.0%float
    ++ "," ++ repr_float 0.0%float.
Proof.
  unfold apply_command.
  cbn [forallb is_not_None andb format].
  change (str_int 1000) with "1000".
  rewrite !append_assoc. reflexivity.
Qed.

(** X12.  The script of [example.py] goes one of three ways, by what
    [set_arb_data] does with the samples.  If it raises, the script
    fails with that exception, nothing has been written, and neither
    the apply nor the close is reached.  If the samples are taken for
    all zero, only the apply command is written: the USER waveform is
    selected though none was uploaded.  Otherwise the upload, the save
    to slot 10 and the apply command are written, in this order. *)
Theorem example_main_outcomes
  (repr_float : float -> string) (sine : list float) (l : log) :
  let applied :=
    "SOUR:APPL:USER 1000," ++ repr_float 1.0%float
    ++ "," ++ repr_float 0.0%float in
  (exists e, set_arb_data sine 10 l = (Raised e, l)
             /\ example_main repr_float sine l = (Raised e, l))
  \/ (exists peak,
        Py.max (map Py.abs sine) = Returned peak
        /\ (peak =? 0)%float = true
        /\ example_main repr_float sine l
           = (Returned tt, (l ++ [applied])%list))
  \/ (exists peak codes,
        Py.max (map Py.abs sine) = Returned peak
        /\ dac_codes peak sine = Returned codes
        /\ example_main repr_float sine l
           = (Returned tt,
              (l ++ [upload_command codes; "*SAV 10"; applied])%list)).
Proof.
  intros applied. unfold example_main, apply, close.
  pose proof (apply_user_command repr_float) as Happly. fold applied in Happly.
  destruct (set_arb_data_cases sine 10 l)
    as [[_ H]|[_ (peak & Hmax & [[Hz H]|[Hz [(e & Hc & _ & H)|(codes & Hc & H)]]])]].
  - left. exists AssertionError. split; [exact H|].
    unfold bind at 1. now rewrite H.
  - right. left. exists peak. split; [exact Hmax|]. split; [exact Hz|].
    unfold bind at 1. rewrite H, bind_write, Happly. reflexivity.
  - left. exists e. split; [exact H|]. unfold bind at 1. now rewrite H.
  - right. right. exists peak, codes. split; [exact Hmax|]. split; [exact Hc|].
    unfold bind at 1. rewrite H, bind_write, Happly. cbn [ret].
    unfold ret. now rewrite <- app_assoc.
Qed.

(** ** Inverting a waveform *)

Lemma binary_round_aux_negb (s : bool) (m e : Z) (loc : location) :
  binary_round_aux prec emax (negb s) m e loc
  = SFopp (binary_round_aux prec emax s m e loc).
Proof.
  unfold binary_round_aux.
  destruct (shr_fexp prec emax m e loc) as [mrs' e'].
  destruct (shr_fexp prec emax _ e' loc_Exact) as [mrs'' e''].
  destruct (shr_m mrs''); [reflexivity| |reflexivity].
  now destruct (e'' <=? emax - prec).
Qed.

Lemma SFmul_opp_l (a b : spec_float) :
  SFmul prec emax (SFopp a) b = SFopp (SFmul prec emax a b).
Proof.
  destruct a as [sa|sa| |sa ma ea]; destruct b as [sb|sb| |sb mb eb];
    cbn [SFmul SFopp]; try reflexivity;
    try (now destruct sa, sb).
  replace (xorb (negb sa) sb) with (negb (xorb sa sb)) by now destruct sa, sb.
  apply binary_round_aux_negb.
Qed.

Lemma abs_opp (x : float) : Py.abs (- x)%float = Py.abs x.
Proof.
  unfold Py.abs. apply Prim2SF_inj. rewrite !abs_spec, opp_spec.
  now destruct (Prim2SF x).
Qed.

(** [round(-y) == -round(y)], with the same exception when there is
    one. *)
Lemma round_opp (y : float) :
  Py.round (- y)%float
  = match Py.round y with
    | Returned c => Returned (- c)
    | Raised e => Raised e
    end.
Proof.
  unfold Py.round. rewrite opp_spec.
  destruct (Prim2SF y) as [s|s| |s m e]; cbn [SFopp]; try reflexivity.
  destruct s; cbn [negb]; f_equal; lia.
Qed.

Lemma dac_codes_opp (peak : float) (data : list float) :
  dac_codes peak (map PrimFloat.opp data)
  = match dac_codes peak data with
    | Returned codes => Returned (map Z.opp codes)
    | Raised e => Raised e
    end.
Proof.
  unfold dac_codes. induction data as [|x data IH]; [reflexivity|].
  cbn [map Py.comprehension].
  assert (E : (- x * (511 / peak))%float = (- (x * (511 / peak)))%float).
  { apply Prim2SF_inj. rewrite opp_spec, !mul_spec, opp_spec.
    apply SFmul_opp_l. }
  rewrite E, round_opp.
  destruct (Py.round (x * (511 / peak))%float) as [c|e]; [|reflexivity].
  rewrite IH. now destruct (Py.comprehension _ data).
Qed.

(** X13.  The encoding is odd: negating every sample leaves the peak
    unchanged and negates every code, so when a sequence is uploaded,
    the negated sequence is uploaded with the negated codes; and when
    one raises or takes the all-zero path, so does the other. *)
Theorem set_arb_data_negated (data : list float) (slot : Z) (l : log) :
  Py.max (map Py.abs (map PrimFloat.opp data)) = Py.max (map Py.abs data)
  /\ match set_arb_data data slot l with
     | (Returned RNone, _) =>
         exists codes,
           set_arb_data data slot l
           = (Returned RNone,
              (l ++ [upload_command codes;
                     ("*SAV " ++ str_int slot)%string])%list)
           /\ set_arb_data (map PrimFloat.opp data) slot l
              = (Returned RNone,
                 (l ++ [upload_command (map Z.opp codes);
                        ("*SAV " ++ str_int slot)%string])%list)
     | other => set_arb_data (map PrimFloat.opp data) slot l = other
     end.
Proof.
  assert (Habs : map Py.abs (map PrimFloat.opp data) = map Py.abs data).
  { rewrite map_map. apply map_ext. exact abs_opp. }
  split; [now rewrite Habs|].
  pose proof (set_arb_data_cases (map PrimFloat.opp data) slot l) as Hopp.
  rewrite length_map, Habs in Hopp. cbv zeta in Hopp.
  destruct (set_arb_data_cases data slot l)
    as [[Hv H]|[Hv (peak & Hmax & [[Hz H]|[Hz [(e & Hc & _ & H)|(codes & Hc & H)]]])]];
    rewrite H; cbv zeta in Hv.
  - destruct Hopp as [[_ H']|[Hv' _]]; [exact H'|congruence].
  - destruct Hopp
      as [[Hv' _]|[_ (peak' & Hmax' & [[_ H']|[Hz' _]])]]; try congruence.
  - destruct Hopp
      as [[Hv' _]|[_ (peak' & Hmax' & [[Hz' _]|[_ [(e' & Hc' & _ & H')|(cs & Hc' & _)]]])]];
      try congruence.
    + assert (peak' = peak) by congruence. subst peak'.
      rewrite dac_codes_opp, Hc in Hc'. congruence.
    + assert (peak' = peak) by congruence. subst peak'.
      rewrite dac_codes_opp, Hc in Hc'. discriminate Hc'.
  - exists codes. split; [reflexivity|].
    destruct Hopp
      as [[Hv' _]|[_ (peak' & Hmax' & [[Hz' _]|[_ [(e' & Hc' & _ & _)|(cs & Hc' & H')]]])]];
      try congruence.
    + assert (peak' = peak) by congruence. subst peak'.
      rewrite dac_codes_opp, Hc in Hc'. discriminate Hc'.
    + assert (peak' = peak) by congruence. subst peak'.
      rewrite dac_codes_opp, Hc in Hc'. injection Hc' as <-. exact H'.
Qed.

(** ** Signs *)

Local Open Scope R_scope.

(** X14.  An uploaded code never has the sign opposite to its sample:
    a sample that is zero has code 0, a positive sample has a code
    that is not negative, and a negative sample one that is not
    positive. *)
Theorem uploaded_codes_keep_sign (data : list float) (slot : Z) (l l' : log) :
  set_arb_data data slot l = (Returned RNone, l') ->
  exists codes : list Z,
    l' = (l ++ [upload_command codes; ("*SAV " ++ str_int slot)%string])%list
    /\ Forall2 (fun x c =>
                  (0 <= float_value x -> (0 <= c)%Z)
                  /\ (float_value x <= 0 -> (c <= 0)%Z)) data codes.
Proof.
  intros Hrun.
  destruct (uploaded_codes_spec data slot l l' Hrun)
    as (peak & codes & Hfin & Hmax & -> & HF).
  exists codes. split; [reflexivity|].
  destruct (peak_facts data peak Hfin Hmax) as (Hp & (x0 & Hx0 & Habs) & Hle).
  pose proof (SF2R_nonneg _ Hp) as HP0. fold (float_value peak) in HP0.
  eapply Forall2_impl_In; [|exact HF].
  intros x c _ (_ & Hacc & _ & _).
  pose proof pow2_m43_small as H43. apply Rabs_bound in Hacc.
  assert (Hinv : 0 <= / float_value peak).
  { destruct (Req_dec (float_value peak) 0) as [->|Hne].
    - rewrite Rinv_0. lra.
    - apply Rlt_le, Rinv_0_lt_compat. lra. }
  unfold Rdiv in Hacc. split; intros Hx.
  - assert (0 <= float_value x * 511 * / float_value peak) by nra.
    assert (H1 : IZR (-1) < IZR c) by (cbn; lra). apply lt_IZR in H1. lia.
  - assert (float_value x * 511 * / float_value peak <= 0) by nra.
    assert (H1 : IZR c < IZR 1) by (cbn; lra). apply lt_IZR in H1. lia.
Qed.

Lemma uploaded_codes_keep_sign_witness :
  exists codes : list Z,
    ["DATA:DAC VOLATILE,0,511,-256,0,256"; "*SAV 10"]
    = [upload_command codes; "*SAV 10"]
    /\ Forall2 (fun x c =>
                  (0 <= float_value x -> (0 <= c)%Z)
                  /\ (float_value x <= 0 -> (c <= 0)%Z))
         [1.0; -0.5; 0.0; 0.5]%float codes.
Proof.
  apply (uploaded_codes_keep_sign [1.0; -0.5; 0.0; 0.5]%float 10 []).
  vm_compute. reflexivity.
Defined.
